(** * dao-proposal-bot: a shallow embedding of [bot.js]

    The bot polls a Solana governance program for proposals, remembers the
    ones it has announced in [proposal_store.json] and announces the others
    on a Discord channel.  Every function of [bot.js] is an [async] function;
    it is embedded as a term of a small free monad [Prog] whose operations are
    the calls that leave the file (file system, RPC, Discord, timers,
    console).  One interpretation runs a program to completion against a
    [World]; a second one, the event loop, interleaves several programs at
    their [await]s. *)

From Stdlib Require Import String Ascii List ZArith Bool Arith Lia.
Import ListNotations.
Open Scope string_scope.
Open Scope list_scope.

Set Implicit Arguments.

(** ** Data *)

(** A JavaScript exception.  [fetchProposals] tells errors apart by
    [err.response && err.response.status === 429]; everything else it needs
    of an error is that it is one. *)
Inductive Err : Type :=
| HttpError (status : Z)
| ReferenceError (name : string)
| JsError (message : string).

(** [err.response && err.response.status === 429] *)
Definition is_429 (err : Err) : bool :=
  match err with
  | HttpError status => (status =? 429)%Z
  | _ => false
  end.

(** What a call produces: a value, or an exception. *)
Inductive Outcome (A : Type) : Type :=
| Returned (a : A)
| Thrown (e : Err).
Arguments Returned {A} a.
Arguments Thrown {A} e.

(** [config.json]: each field is absent until a command sets it. *)
Record Config : Type := mkConfig {
  realmId : option string;
  programId : option string;
  notificationChannelId : option string
}.

(** [{}] *)
Definition empty_config : Config := mkConfig None None None.

(** JavaScript truthiness of a field that is a string or [undefined]. *)
Definition truthy (v : option string) : bool :=
  match v with
  | Some s => negb (s =? "")
  | None => false
  end.

(** The string behind a field known to be truthy. *)
Definition str (v : option string) : string :=
  match v with
  | Some s => s
  | None => ""
  end.

(** An account returned by [getGovernanceAccountsByRealm]; [publicKey] is
    its base58 form. *)
Record GovernanceAccount : Type := mkGovernanceAccount {
  ga_publicKey : string
}.

(** A proposal as [getAllProposals] returns it.  [rp_state] lists the keys
    of the [state] object, [rp_votingCompletedAt] is the BN of seconds or
    [null]. *)
Record RawProposal : Type := mkRawProposal {
  rp_publicKey : string;
  rp_governance : string;
  rp_name : string;
  rp_descriptionLink : option string;
  rp_state : list string;
  rp_votingCompletedAt : option Z
}.

(** [votingEndTime]: an ISO date, written here as its epoch milliseconds,
    or the text "No end time available". *)
Inductive VotingEnd : Type :=
| IsoDate (epoch_ms : Z)
| NoEndTimeAvailable.

Module Proposal.

(** The object [fetchProposals] builds for each proposal it keeps. *)
Record t : Type := mk {
  id : string;
  title : string;
  description : string;
  state : option string;
  votingEndTime : VotingEnd
}.

End Proposal.

(** The embed of [sendDiscordNotification]: the fields "State" and
    "Voting Ends" are [em_state] and [em_votingEnds]. *)
Record Embed : Type := mkEmbed {
  em_title : string;
  em_description : string;
  em_state : option string;
  em_votingEnds : VotingEnd;
  em_color : Z
}.

(** What is passed to [channel.send] and [message.reply].  [Detected n] is
    the template string [`Detected ${n} new proposals.`]. *)
Inductive Message : Type :=
| Text (s : string)
| Detected (n : nat)
| Embeds (e : Embed).

Definition no_proposals_text : string :=
  "No proposals found during this check.".
Definition error_text : string :=
  "An error occurred while processing proposals. Check the logs for details.".
Definition setup_usage_text : string :=
  "Usage: `!setup <REALM_ID> <PROGRAM_ID>`".
Definition setup_complete_text : string :=
  "Setup complete. Run `!setchannel` to set the notification channel.".
Definition channel_set_text : string :=
  "Notification channel set.".
Definition not_configured_text : string :=
  "Bot is not fully configured. Use `!setup` and `!setchannel` first.".
Definition invalid_channel_text : string :=
  "Notification channel is invalid. Please reconfigure with `!setchannel`.".

(** A channel object: its id and the answer of [isTextBased()]. *)
Record Channel : Type := mkChannel {
  channel_id : string;
  isTextBased : bool
}.

(** The [message] of a [messageCreate] event. *)
Record DiscordMessage : Type := mkDiscordMessage {
  author_bot : bool;
  content : string;
  message_channel : Channel
}.

(** The lines written with [console.log], [console.warn], [console.error]. *)
Inductive LogLine : Type :=
| LogStoreNotFound
| LogProposalSaved (proposalId : string)
| LogFetching (realm program : string)
| LogGovernanceAccounts (n : nat)
| LogTotalProposals (n : nat)
| LogFilteredCount (n : nat)
| LogRateLimited (delayTime : Z)
| LogFetchError (err : Err)
| LogRetriesFailed
| LogConfigIncomplete
| LogChannelInvalid
| LogStartingMonitoring
| LogMonitoringError (err : Err)
| LogProcessing
| LogFetched (n : nat)
| LogNoProposals
| LogNewProposal (title : string)
| LogNoNewProposals
| LogProcessError (err : Err).

Definition AUTO_CHECK_INTERVAL : Z := 30 * 60 * 1000.

(** ** Operations and programs *)

(** The calls [bot.js] makes outside itself, indexed by what they return.
    [FsReadStore] and [FsReadConfig] are [fs.readFile] followed by
    [JSON.parse]; [FsWriteStore] and [FsWriteConfig] are [JSON.stringify]
    followed by [fs.writeFile]. *)
Inductive Effect : Type -> Type :=
| FsAccessStore : Effect unit
| FsReadStore : Effect (list string)
| FsWriteStore (ids : list string) : Effect unit
| FsReadConfig : Effect Config
| FsWriteConfig (c : Config) : Effect unit
| NewPublicKey (s : string) : Effect unit
| GetGovernanceAccountsByRealm (program realm : string)
    : Effect (list GovernanceAccount)
| GetAllProposals (program : string) : Effect (list RawProposal)
| Sleep (ms : Z) : Effect unit
| ChannelsFetch (channelId : string) : Effect (option Channel)
| ChannelSend (ch : Channel) (m : Message) : Effect unit
| ChannelSendDetached (ch : Channel) (m : Message) : Effect unit
| MessageReply (to : DiscordMessage) (m : Message) : Effect unit
| Console (l : LogLine) : Effect unit
| ReadMonitoringTimeout : Effect (option nat)
| AssignMonitoringTimeout (handle : nat) : Effect unit
| ClearTimeout (handle : nat) : Effect unit
| SetTimeout (callback : Config) (ms : Z) : Effect nat
| CallStartMonitoring (config : Config) : Effect unit.

(** Programs: return, throw, or perform an operation and go on with what it
    produced. *)
Inductive Prog (A : Type) : Type :=
| Ret (a : A)
| Throw (e : Err)
| Op (X : Type) (eff : Effect X) (k : Outcome X -> Prog A).
Arguments Ret {A} a.
Arguments Throw {A} e.
Arguments Op {A X} eff k.

Fixpoint bind {A B : Type} (p : Prog A) (f : A -> Prog B) : Prog B :=
  match p with
  | Ret a => f a
  | Throw e => Throw e
  | Op eff k => Op eff (fun r => bind (k r) f)
  end.

(** [try { p } catch (err) { h err }] *)
Fixpoint try_catch {A : Type} (p : Prog A) (h : Err -> Prog A) : Prog A :=
  match p with
  | Ret a => Ret a
  | Throw e => h e
  | Op eff k => Op eff (fun r => try_catch (k r) h)
  end.

(** An operation whose exception propagates. *)
Definition call {X : Type} (eff : Effect X) : Prog X :=
  Op eff (fun r => match r with
                   | Returned x => Ret x
                   | Thrown e => Throw e
                   end).

Declare Scope prog_scope.
Delimit Scope prog_scope with prog.
Notation "x <- p ;; q" := (bind p (fun x => q))
  (at level 61, p at next level, right associativity) : prog_scope.
Notation "p ;; q" := (bind p (fun _ => q))
  (at level 61, right associativity) : prog_scope.
Open Scope prog_scope.

Definition console (l : LogLine) : Prog unit := call (Console l).

(** ** The functions of [bot.js] *)

(** [loadConfig]: the parsed file, or [{}] when reading or parsing fails. *)
Definition loadConfig : Prog Config :=
  try_catch (call FsReadConfig) (fun _ => Ret empty_config).

Definition saveConfig (config : Config) : Prog unit :=
  call (FsWriteConfig config).

(** [initializeProposalStore]: when [fs.access] fails, write [[]]. *)
Definition initializeProposalStore : Prog unit :=
  try_catch (call FsAccessStore)
            (fun _ => console LogStoreNotFound ;; call (FsWriteStore [])).

(** [storedProposals.includes(proposalId)] *)
Definition includes (l : list string) (x : string) : bool :=
  existsb (String.eqb x) l.

Definition isNewProposal (proposalId : string) : Prog bool :=
  initializeProposalStore ;;
  storedProposals <- call FsReadStore ;;
  Ret (negb (includes storedProposals proposalId)).

Definition saveProposal (proposalId : string) : Prog unit :=
  initializeProposalStore ;;
  storedProposals <- call FsReadStore ;;
  if negb (includes storedProposals proposalId) then
    call (FsWriteStore (storedProposals ++ [proposalId])) ;;
    console (LogProposalSaved proposalId)
  else Ret tt.

(** [proposal.votingCompletedAt ? new Date(proposal.votingCompletedAt
    .toNumber() * 1000).toISOString() : "No end time available"].
    [toNumber] throws on a BN of more than 53 bits and [toISOString] on a
    time value outside the range of [Date]. *)
Definition max_time_value : Z := 8640000000000000.

Definition votingEndTime_of (votingCompletedAt : option Z) : Outcome VotingEnd :=
  match votingCompletedAt with
  | None => Returned NoEndTimeAvailable
  | Some secs =>
      if (Z.abs secs <? 2 ^ 53)%Z then
        if (Z.abs (secs * 1000) <=? max_time_value)%Z
        then Returned (IsoDate (secs * 1000))
        else Thrown (JsError "RangeError: Invalid time value")
      else Thrown (JsError "Number can only safely store up to 53 bits")
  end.

(** [proposal.descriptionLink || "No description provided."] *)
Definition description_of (descriptionLink : option string) : string :=
  if truthy descriptionLink then str descriptionLink
  else "No description provided.".

(** The arrow function of the final [map] of [fetchProposals]. *)
Definition to_record (proposal : RawProposal) : Outcome Proposal.t :=
  match votingEndTime_of (rp_votingCompletedAt proposal) with
  | Returned ends =>
      Returned (Proposal.mk (rp_publicKey proposal)
                            (rp_name proposal)
                            (description_of (rp_descriptionLink proposal))
                            (hd_error (rp_state proposal))
                            ends)
  | Thrown e => Thrown e
  end.

(** [Array.prototype.map] with a callback that may throw. *)
Fixpoint map_outcome {A B : Type} (f : A -> Outcome B) (l : list A)
  : Outcome (list B) :=
  match l with
  | [] => Returned []
  | x :: rest =>
      match f x with
      | Returned y =>
          match map_outcome f rest with
          | Returned ys => Returned (y :: ys)
          | Thrown e => Thrown e
          end
      | Thrown e => Thrown e
      end
  end.

Definition lift {A : Type} (o : Outcome A) : Prog A :=
  match o with
  | Returned a => Ret a
  | Thrown e => Throw e
  end.

(** The predicate of [rawProposals.filter]. *)
Definition in_realm (governanceAccountPubkeys : list string)
  (proposal : RawProposal) : bool :=
  includes governanceAccountPubkeys (rp_governance proposal).

(** The body of the [try] of [fetchProposals]: one attempt. *)
Definition fetch_attempt (realmId programId : string)
  : Prog (list Proposal.t) :=
  console (LogFetching realmId programId) ;;
  call (NewPublicKey realmId) ;;
  governanceAccounts <- call (GetGovernanceAccountsByRealm programId realmId) ;;
  console (LogGovernanceAccounts (length governanceAccounts)) ;;
  let governanceAccountPubkeys := map ga_publicKey governanceAccounts in
  call (NewPublicKey programId) ;;
  rawProposals <- call (GetAllProposals programId) ;;
  console (LogTotalProposals (length rawProposals)) ;;
  let filteredProposals :=
    filter (in_realm governanceAccountPubkeys) rawProposals in
  console (LogFilteredCount (length filteredProposals)) ;;
  lift (map_outcome to_record filteredProposals).

(** What the identifier [delay] is bound to where [fetchProposals] calls
    it: a function of the milliseconds, or nothing. *)
Definition Binding : Type := option (Z -> Prog unit).

(** [await delay(delayTime)]: calling an identifier that has no binding
    throws a ReferenceError. *)
Definition call_delay (delay : Binding) (delayTime : Z) : Prog unit :=
  match delay with
  | Some f => f delayTime
  | None => Throw (ReferenceError "delay")
  end.

(** The [catch (err)] clause of [fetchProposals]: [None] means that the
    loop goes on. *)
Definition fetch_catch (delay : Binding) (delayTime : Z) (err : Err)
  : Prog (option (list Proposal.t)) :=
  if is_429 err then
    console (LogRateLimited delayTime) ;;
    call_delay delay delayTime ;;
    Ret None
  else
    console (LogFetchError err) ;;
    Throw err.

(** The [while (retries > 0)] loop of [fetchProposals] and what follows
    it.  The [try] returns from the function ([Some proposals]); after the
    [catch] clause [retries] is one less and [delayTime] doubled. *)
Fixpoint fetch_loop (delay : Binding) (realmId programId : string)
  (retries : nat) (delayTime : Z) : Prog (list Proposal.t) :=
  match retries with
  | O =>
      console LogRetriesFailed ;;
      Ret []
  | S retries' =>
      attempt <- try_catch
                   (proposals <- fetch_attempt realmId programId ;;
                    Ret (Some proposals))
                   (fetch_catch delay delayTime) ;;
      match attempt with
      | Some proposals => Ret proposals
      | None => fetch_loop delay realmId programId retries' (delayTime * 2)
      end
  end.

(** [fetchProposals] in a scope where [delay] is bound as given. *)
Definition fetchProposals_in (delay : Binding) (realmId programId : string)
  : Prog (list Proposal.t) :=
  call (NewPublicKey programId) ;;
  fetch_loop delay realmId programId 5 500.

(** [bot.js] declares no [delay] and imports none: the five [require]s
    bind [Client], [GatewayIntentBits], [Connection], [PublicKey],
    [SplGovernance] and [fs], and Node has no global of that name. *)
Definition delay_in_bot_js : Binding := None.

Definition fetchProposals (realmId programId : string)
  : Prog (list Proposal.t) :=
  fetchProposals_in delay_in_bot_js realmId programId.

(** The function the retry loop was written for:
    [ms => new Promise(resolve => setTimeout(resolve, ms))]. *)
Definition delay_by_timer : Binding := Some (fun ms => call (Sleep ms)).

Definition embed_of (proposal : Proposal.t) : Embed :=
  mkEmbed (Proposal.title proposal)
          (Proposal.description proposal)
          (Proposal.state proposal)
          (Proposal.votingEndTime proposal)
          5814783.

Definition sendDiscordNotification (channel : Channel)
  (proposal : Proposal.t) : Prog unit :=
  call (ChannelSend channel (Embeds (embed_of proposal))).

(** The [for (const proposal of proposals)] loop of [processProposals];
    the result is [newProposalsCount]. *)
Fixpoint process_each (channel : Channel) (proposals : list Proposal.t)
  (newProposalsCount : nat) : Prog nat :=
  match proposals with
  | [] => Ret newProposalsCount
  | proposal :: rest =>
      isNew <- isNewProposal (Proposal.id proposal) ;;
      if isNew : bool then
        console (LogNewProposal (Proposal.title proposal)) ;;
        sendDiscordNotification channel proposal ;;
        saveProposal (Proposal.id proposal) ;;
        process_each channel rest (S newProposalsCount)
      else process_each channel rest newProposalsCount
  end.

(** The body of that loop as a program of its own: whether the proposal
    was new.  [run_process_each_cons] relates the loop to it. *)
Definition process_one (channel : Channel) (proposal : Proposal.t) : Prog bool :=
  isNew <- isNewProposal (Proposal.id proposal) ;;
  if isNew : bool then
    console (LogNewProposal (Proposal.title proposal)) ;;
    sendDiscordNotification channel proposal ;;
    saveProposal (Proposal.id proposal) ;;
    Ret true
  else Ret false.

(** The [try] block of [processProposals]. *)
Definition process_try (channel : Channel) (realmId programId : string)
  : Prog unit :=
  proposals <- fetchProposals realmId programId ;;
  console (LogFetched (length proposals)) ;;
  if (length proposals =? 0)%nat then
    console LogNoProposals ;;
    call (ChannelSend channel (Text no_proposals_text))
  else
    newProposalsCount <- process_each channel proposals 0 ;;
    if (0 <? newProposalsCount)%nat then
      call (ChannelSend channel (Detected newProposalsCount))
    else console LogNoNewProposals.

(** The [catch (error)] clause of [processProposals]. *)
Definition process_catch (channel : Channel) (error : Err) : Prog unit :=
  console (LogProcessError error) ;;
  call (ChannelSend channel (Text error_text)).

Definition processProposals (channel : Channel) (realmId programId : string)
  : Prog unit :=
  console LogProcessing ;;
  try_catch (process_try channel realmId programId) (process_catch channel).

(** [!realmId || !programId || !notificationChannelId] *)
Definition incomplete (config : Config) : bool :=
  negb (truthy (realmId config))
  || negb (truthy (programId config))
  || negb (truthy (notificationChannelId config)).

(** The [try] block of [startMonitoring]. *)
Definition monitoring_try (config : Config) : Prog unit :=
  channel <- call (ChannelsFetch (str (notificationChannelId config))) ;;
  match channel with
  | None => console LogChannelInvalid
  | Some channel =>
      if negb (isTextBased channel) then console LogChannelInvalid
      else
        monitoringTimeout <- call ReadMonitoringTimeout ;;
        match monitoringTimeout with
        | Some handle => call (ClearTimeout handle)
        | None => Ret tt
        end ;;
        console LogStartingMonitoring ;;
        processProposals channel (str (realmId config))
                         (str (programId config)) ;;
        handle <- call (SetTimeout config AUTO_CHECK_INTERVAL) ;;
        call (AssignMonitoringTimeout handle)
  end.

Definition startMonitoring (config : Config) : Prog unit :=
  if incomplete config then console LogConfigIncomplete
  else
    try_catch (monitoring_try config)
              (fun error => console (LogMonitoringError error)).

(** [message.content.split(" ")]: the fields between single spaces, the
    empty ones included. *)
Fixpoint split_spaces (s : string) : list string :=
  match s with
  | EmptyString => [""]
  | String c rest =>
      if Ascii.eqb c " "%char then "" :: split_spaces rest
      else match split_spaces rest with
           | field :: fields => String c field :: fields
           | [] => [String c ""]
           end
  end.

(** The [!setup] branch of the [messageCreate] handler.  [None] is the
    [return] after the usage reply, otherwise the result is [config] as the
    branch leaves it. *)
Definition setup_command (message : DiscordMessage) (config : Config)
  : Prog (option Config) :=
  if prefix "!setup" (content message) then
    let args := split_spaces (content message) in
    if (length args <? 3)%nat then
      call (MessageReply message (Text setup_usage_text)) ;;
      Ret None
    else
      let config := mkConfig (Some (nth 1 args "")) (Some (nth 2 args ""))
                             (notificationChannelId config) in
      saveConfig config ;;
      call (ChannelSendDetached (message_channel message)
                                (Text setup_complete_text)) ;;
      (if truthy (notificationChannelId config)
       then call (CallStartMonitoring config)
       else Ret tt) ;;
      Ret (Some config)
  else Ret (Some config).

(** The [!setchannel] branch. *)
Definition setchannel_command (message : DiscordMessage) (config : Config)
  : Prog Config :=
  if prefix "!setchannel" (content message) then
    let config := mkConfig (realmId config) (programId config)
                    (Some (channel_id (message_channel message))) in
    saveConfig config ;;
    call (ChannelSendDetached (message_channel message)
                              (Text channel_set_text)) ;;
    (if truthy (realmId config) && truthy (programId config)
     then call (CallStartMonitoring config)
     else Ret tt) ;;
    Ret config
  else Ret config.

(** The [!fetch] branch. *)
Definition fetch_command (message : DiscordMessage) (config : Config)
  : Prog unit :=
  if content message =? "!fetch" then
    if incomplete config then
      call (MessageReply message (Text not_configured_text))
    else
      channel <- try_catch
                   (call (ChannelsFetch (str (notificationChannelId config))))
                   (fun _ => Ret None) ;;
      match channel with
      | None => call (MessageReply message (Text invalid_channel_text))
      | Some channel =>
          processProposals channel (str (realmId config))
                           (str (programId config))
      end
  else Ret tt.

(** [client.on("messageCreate", async (message) => ...)] *)
Definition onMessageCreate (message : DiscordMessage) : Prog unit :=
  if author_bot message then Ret tt
  else
    config <- loadConfig ;;
    after_setup <- setup_command message config ;;
    match after_setup with
    | None => Ret tt
    | Some config =>
        config <- setchannel_command message config ;;
        fetch_command message config
    end.

(** [client.once("ready", ...)] *)
Definition onReady : Prog unit :=
  config <- loadConfig ;;
  call (CallStartMonitoring config).

(** ** The world and the interpretation of the operations *)

(** What an operation did, as an observer of the process sees it.  A
    [fault] is the exception the call ended with, if any. *)
Inductive Event : Type :=
| EvAccessStore (found : bool)
| EvReadStore (r : Outcome (list string))
| EvWriteStore (ids : list string) (fault : option Err)
| EvReadConfig (r : Outcome Config)
| EvWriteConfig (c : Config) (fault : option Err)
| EvNewPublicKey (s : string) (valid : bool)
| EvGetGovernanceAccounts (program realm : string) (fault : option Err)
| EvGetAllProposals (program : string) (fault : option Err)
| EvSleep (ms : Z)
| EvChannelsFetch (channelId : string)
| EvSend (channelId : string) (m : Message) (fault : option Err)
| EvSendDetached (channelId : string) (m : Message) (fault : option Err)
| EvReply (m : Message) (fault : option Err)
| EvConsole (l : LogLine)
| EvReadTimeout
| EvAssignTimeout (handle : nat)
| EvClearTimeout (handle : nat)
| EvSetTimeout (handle : nat) (ms : Z) (callback : Config)
| EvCallStartMonitoring (config : Config).

(** The state the process runs against.
    - [proposal_store] and [config_file] are the two JSON files, [None]
      when the file does not exist.  [fs.access] and [fs.readFile] succeed
      exactly on a file that exists.
    - [governance_accounts], [program_proposals] and [valid_key] are the
      chain as the RPC node serves it and the keys [new PublicKey] accepts.
    - [channel_lookup] is what [client.channels.fetch] answers.
    - [rpc_faults], [send_faults] and [write_faults] script the failures of
      the RPC calls, of [send]/[reply] and of [fs.writeFile]: each call
      takes the head of its list, [Some e] makes it throw [e] (a write
      that throws leaves the file as it was), and a call past the end of
      the list succeeds.
    - [monitoringTimeout] is the global variable, [pending_timers] the
      timeouts set and neither cleared nor fired, [next_handle] the handle
      the next [setTimeout] returns. *)
Record World : Type := mkWorld {
  proposal_store : option (list string);
  config_file : option Config;
  governance_accounts : string -> string -> list GovernanceAccount;
  program_proposals : string -> list RawProposal;
  valid_key : string -> bool;
  channel_lookup : string -> Outcome (option Channel);
  rpc_faults : list (option Err);
  send_faults : list (option Err);
  write_faults : list (option Err);
  monitoringTimeout : option nat;
  pending_timers : list (nat * Config);
  next_handle : nat
}.

Definition set_proposal_store (v : option (list string)) (w : World) : World :=
  mkWorld v (config_file w) (governance_accounts w) (program_proposals w)
          (valid_key w) (channel_lookup w) (rpc_faults w) (send_faults w)
          (write_faults w) (monitoringTimeout w) (pending_timers w)
          (next_handle w).

Definition set_config_file (v : option Config) (w : World) : World :=
  mkWorld (proposal_store w) v (governance_accounts w) (program_proposals w)
          (valid_key w) (channel_lookup w) (rpc_faults w) (send_faults w)
          (write_faults w) (monitoringTimeout w) (pending_timers w)
          (next_handle w).

Definition set_rpc_faults (v : list (option Err)) (w : World) : World :=
  mkWorld (proposal_store w) (config_file w) (governance_accounts w)
          (program_proposals w) (valid_key w) (channel_lookup w) v
          (send_faults w) (write_faults w) (monitoringTimeout w)
          (pending_timers w) (next_handle w).

Definition set_send_faults (v : list (option Err)) (w : World) : World :=
  mkWorld (proposal_store w) (config_file w) (governance_accounts w)
          (program_proposals w) (valid_key w) (channel_lookup w)
          (rpc_faults w) v (write_faults w) (monitoringTimeout w)
          (pending_timers w) (next_handle w).

Definition set_write_faults (v : list (option Err)) (w : World) : World :=
  mkWorld (proposal_store w) (config_file w) (governance_accounts w)
          (program_proposals w) (valid_key w) (channel_lookup w)
          (rpc_faults w) (send_faults w) v (monitoringTimeout w)
          (pending_timers w) (next_handle w).

Definition set_monitoringTimeout (v : option nat) (w : World) : World :=
  mkWorld (proposal_store w) (config_file w) (governance_accounts w)
          (program_proposals w) (valid_key w) (channel_lookup w)
          (rpc_faults w) (send_faults w) (write_faults w) v
          (pending_timers w) (next_handle w).

Definition set_timers (timers : list (nat * Config)) (next : nat)
  (w : World) : World :=
  mkWorld (proposal_store w) (config_file w) (governance_accounts w)
          (program_proposals w) (valid_key w) (channel_lookup w)
          (rpc_faults w) (send_faults w) (write_faults w)
          (monitoringTimeout w) timers next.

(** The head of a script of faults and the rest of it. *)
Definition next_fault (script : list (option Err))
  : option Err * list (option Err) :=
  match script with
  | [] => (None, [])
  | fault :: rest => (fault, rest)
  end.

Definition outcome_of_fault (fault : option Err) : Outcome unit :=
  match fault with
  | None => Returned tt
  | Some e => Thrown e
  end.

Definition with_fault {A : Type} (fault : option Err) (a : A) : Outcome A :=
  match fault with
  | None => Returned a
  | Some e => Thrown e
  end.

Definition enoent : Err := JsError "ENOENT: no such file or directory".

(** What one operation does: the event it leaves, the world after it and
    what the caller gets. *)
Definition perform {X : Type} (eff : Effect X) (w : World)
  : Event * World * Outcome X :=
  match eff in Effect X return Event * World * Outcome X with
  | FsAccessStore =>
      match proposal_store w with
      | Some _ => (EvAccessStore true, w, Returned tt)
      | None => (EvAccessStore false, w, Thrown enoent)
      end
  | FsReadStore =>
      let r := match proposal_store w with
               | Some ids => Returned ids
               | None => Thrown enoent
               end in
      (EvReadStore r, w, r)
  | FsWriteStore ids =>
      let (fault, rest) := next_fault (write_faults w) in
      let w := set_write_faults rest w in
      (EvWriteStore ids fault,
       match fault with
       | None => set_proposal_store (Some ids) w
       | Some _ => w
       end,
       outcome_of_fault fault)
  | FsReadConfig =>
      let r := match config_file w with
               | Some c => Returned c
               | None => Thrown enoent
               end in
      (EvReadConfig r, w, r)
  | FsWriteConfig c =>
      let (fault, rest) := next_fault (write_faults w) in
      let w := set_write_faults rest w in
      (EvWriteConfig c fault,
       match fault with
       | None => set_config_file (Some c) w
       | Some _ => w
       end,
       outcome_of_fault fault)
  | NewPublicKey s =>
      (EvNewPublicKey s (valid_key w s), w,
       if valid_key w s then Returned tt
       else Thrown (JsError "Invalid public key input"))
  | GetGovernanceAccountsByRealm program realm =>
      let (fault, rest) := next_fault (rpc_faults w) in
      (EvGetGovernanceAccounts program realm fault,
       set_rpc_faults rest w,
       with_fault fault (governance_accounts w program realm))
  | GetAllProposals program =>
      let (fault, rest) := next_fault (rpc_faults w) in
      (EvGetAllProposals program fault,
       set_rpc_faults rest w,
       with_fault fault (program_proposals w program))
  | Sleep ms => (EvSleep ms, w, Returned tt)
  | ChannelsFetch channelId =>
      (EvChannelsFetch channelId, w, channel_lookup w channelId)
  | ChannelSend ch m =>
      let (fault, rest) := next_fault (send_faults w) in
      (EvSend (channel_id ch) m fault, set_send_faults rest w,
       outcome_of_fault fault)
  | ChannelSendDetached ch m =>
      let (fault, rest) := next_fault (send_faults w) in
      (EvSendDetached (channel_id ch) m fault, set_send_faults rest w,
       Returned tt)
  | MessageReply to m =>
      let (fault, rest) := next_fault (send_faults w) in
      (EvReply m fault, set_send_faults rest w, outcome_of_fault fault)
  | Console l => (EvConsole l, w, Returned tt)
  | ReadMonitoringTimeout => (EvReadTimeout, w, Returned (monitoringTimeout w))
  | AssignMonitoringTimeout handle =>
      (EvAssignTimeout handle, set_monitoringTimeout (Some handle) w,
       Returned tt)
  | ClearTimeout handle =>
      (EvClearTimeout handle,
       set_timers (filter (fun t => negb (fst t =? handle)%nat)
                          (pending_timers w))
                  (next_handle w) w,
       Returned tt)
  | SetTimeout callback ms =>
      (EvSetTimeout (next_handle w) ms callback,
       set_timers (pending_timers w ++ [(next_handle w, callback)])
                  (S (next_handle w)) w,
       Returned (next_handle w))
  | CallStartMonitoring config =>
      (EvCallStartMonitoring config, w, Returned tt)
  end.

(** A program run to its end without interruption. *)
Record Run (A : Type) : Type := mkRun {
  events : list Event;
  final : World;
  outcome : Outcome A
}.

Fixpoint run {A : Type} (p : Prog A) (w : World) : Run A :=
  match p with
  | Ret a => mkRun [] w (Returned a)
  | Throw e => mkRun [] w (Thrown e)
  | Op eff k =>
      let '(ev, w1, r) := perform eff w in
      let rest := run (k r) w1 in
      mkRun (ev :: events rest) (final rest) (outcome rest)
  end.

(** ** The event loop

    Node runs one piece of JavaScript at a time; an [async] function gives
    the loop back at each [await] and nowhere else.  A task is the rest of
    such a function, stopped at the operation it awaits; the operation takes
    effect when the task is resumed.  Between two resumptions the loop may
    deliver a Discord message or fire a timer, each of which starts a new
    task. *)

(** The operations [bot.js] awaits (or returns from an async function);
    the others complete within the running piece of code. *)
Definition awaited {X : Type} (eff : Effect X) : bool :=
  match eff with
  | FsAccessStore | FsReadStore | FsWriteStore _
  | FsReadConfig | FsWriteConfig _
  | GetGovernanceAccountsByRealm _ _ | GetAllProposals _
  | Sleep _ | ChannelsFetch _ | ChannelSend _ _ | MessageReply _ _ => true
  | _ => false
  end.

(** Run a task up to its next [await]: the events of the piece, the world
    after it, and what is left of the task ([None] when it has ended). *)
Fixpoint advance (p : Prog unit) (w : World)
  : list Event * World * option (Prog unit) :=
  match p with
  | Ret _ => ([], w, None)
  | Throw _ => ([], w, None)
  | Op eff k =>
      if awaited eff then ([], w, Some p)
      else
        let '(ev, w1, r) := perform eff w in
        let '(evs, w2, rest) := advance (k r) w1 in
        (ev :: evs, w2, rest)
  end.

(** [tasks] are the suspended tasks by number, [history] is every event so
    far with the number of the task that caused it. *)
Record Loop : Type := mkLoop {
  world : World;
  tasks : list (nat * Prog unit);
  next_task : nat;
  history : list (nat * Event)
}.

Definition suspended (t : nat) (rest : option (Prog unit))
  : list (nat * Prog unit) :=
  match rest with
  | Some p => [(t, p)]
  | None => []
  end.

(** A new task for [p], run up to its first [await]. *)
Definition start_task (p : Prog unit) (l : Loop) : Loop :=
  let '(evs, w, rest) := advance p (world l) in
  mkLoop w
         (tasks l ++ suspended (next_task l) rest)
         (S (next_task l))
         (history l ++ map (pair (next_task l)) evs).

(** The configurations [startMonitoring] was called with, without [await],
    in a piece of code. *)
Fixpoint calls (evs : list Event) : list Config :=
  match evs with
  | [] => []
  | EvCallStartMonitoring config :: rest => config :: calls rest
  | _ :: rest => calls rest
  end.

(** Each such call is a task of its own.  It is started here when the
    calling piece ends rather than in the middle of it: the caller has
    nothing left to do but two tests on [message.content]. *)
Definition start_calls (evs : list Event) (l : Loop) : Loop :=
  fold_left (fun l config => start_task (startMonitoring config) l)
            (calls evs) l.

Fixpoint take_task (t : nat) (ts : list (nat * Prog unit))
  : option (Prog unit * list (nat * Prog unit)) :=
  match ts with
  | [] => None
  | (t', p) :: rest =>
      if (t' =? t)%nat then Some (p, rest)
      else match take_task t rest with
           | Some (q, others) => Some (q, (t', p) :: others)
           | None => None
           end
  end.

(** The awaited operation of task [t] completes and the task runs on to
    its next [await]. *)
Definition resume (t : nat) (l : Loop) : option Loop :=
  match take_task t (tasks l) with
  | Some (Op eff k, others) =>
      let '(ev, w1, r) := perform eff (world l) in
      let '(evs, w2, rest) := advance (k r) w1 in
      Some (start_calls (ev :: evs)
              (mkLoop w2 (others ++ suspended t rest) (next_task l)
                      (history l ++ map (pair t) (ev :: evs))))
  | _ => None
  end.

(** A handler run as a new task, with the calls it makes. *)
Definition dispatch (handler : Prog unit) (l : Loop) : Loop :=
  let '(evs, _, _) := advance handler (world l) in
  start_calls evs (start_task handler l).

(** The timeout [handle] fires: its callback is [() => startMonitoring(config)]. *)
Definition fire (handle : nat) (l : Loop) : option Loop :=
  match find (fun t => (fst t =? handle)%nat) (pending_timers (world l)) with
  | Some (_, config) =>
      let w := set_timers (filter (fun t => negb (fst t =? handle)%nat)
                                  (pending_timers (world l)))
                          (next_handle (world l)) (world l) in
      Some (start_task (startMonitoring config)
                       (mkLoop w (tasks l) (next_task l) (history l)))
  | None => None
  end.

(** What the loop may do next. *)
Inductive Stimulus : Type :=
| ClientReady
| MessageCreate (message : DiscordMessage)
| TimerFires (handle : nat)
| Resume (task : nat).

Definition step (s : Stimulus) (l : Loop) : option Loop :=
  match s with
  | ClientReady => Some (dispatch onReady l)
  | MessageCreate message => Some (dispatch (onMessageCreate message) l)
  | TimerFires handle => fire handle l
  | Resume t => resume t l
  end.

Fixpoint run_loop (schedule : list Stimulus) (l : Loop) : option Loop :=
  match schedule with
  | [] => Some l
  | s :: rest =>
      match step s l with
      | Some l' => run_loop rest l'
      | None => None
      end
  end.

(** The process as [node bot.js] starts it. *)
Definition boot (w : World) : Loop := mkLoop w [] 0 [].

(** A task is in a fetch/notify cycle when it has entered
    [processProposals], whose first statement logs [LogProcessing], and is
    still suspended: nothing is awaited after [processProposals] returns,
    neither in [startMonitoring] nor in the [!fetch] branch. *)
Definition entered_cycle (t : nat) (h : list (nat * Event)) : bool :=
  existsb (fun e => match e with
                    | (t', EvConsole LogProcessing) => (t' =? t)%nat
                    | _ => false
                    end) h.

Definition in_flight (l : Loop) : list nat :=
  filter (fun t => entered_cycle t (history l)) (map fst (tasks l)).

(** ** What a trace shows *)

Arguments includes : simpl never.

(** The ids in [proposal_store.json]; none when the file does not exist. *)
Definition store_ids (w : World) : list string :=
  match proposal_store w with
  | Some ids => ids
  | None => []
  end.

(** The writes to [proposal_store.json], with their faults. *)
Definition store_writes (evs : list Event) : list (list string * option Err) :=
  flat_map (fun ev => match ev with
                      | EvWriteStore ids fault => [(ids, fault)]
                      | _ => []
                      end) evs.

(** The messages passed to an awaited [channel.send], delivered or not. *)
Definition sends (evs : list Event) : list Message :=
  flat_map (fun ev => match ev with
                      | EvSend _ m _ => [m]
                      | _ => []
                      end) evs.

(** The messages an awaited [channel.send] delivered. *)
Definition delivered (evs : list Event) : list Message :=
  flat_map (fun ev => match ev with
                      | EvSend _ m None => [m]
                      | _ => []
                      end) evs.

(** The waits, in milliseconds. *)
Definition sleeps (evs : list Event) : list Z :=
  flat_map (fun ev => match ev with
                      | EvSleep ms => [ms]
                      | _ => []
                      end) evs.

(** The attempts of [fetchProposals]: each starts by logging
    [LogFetching]. *)
Definition attempts (evs : list Event) : nat :=
  length (filter (fun ev => match ev with
                            | EvConsole (LogFetching _ _) => true
                            | _ => false
                            end) evs).



Definition is_notification (m : Message) : bool :=
  match m with
  | Embeds _ => true
  | _ => false
  end.


(** The proposals of [programId] that [fetchProposals] keeps for
    [realmId], before they are turned into records. *)
Definition kept (w : World) (realmId programId : string) : list RawProposal :=
  filter (in_realm (map ga_publicKey (governance_accounts w programId realmId)))
         (program_proposals w programId).

(** The backoff the retry loop is written to follow: [retries] waits
    starting at [delayTime], each twice the one before. *)
Fixpoint backoff (retries : nat) (delayTime : Z) : list Z :=
  match retries with
  | O => []
  | S retries' => delayTime :: backoff retries' (delayTime * 2)
  end.

(** [n] attempts in a row, starting in [w], end in a 429. *)
Fixpoint rate_limited (realmId programId : string) (delay : Binding)
  (n : nat) (delayTime : Z) (w : World) : Prop :=
  match n with
  | O => True
  | S n' =>
      let a := run (fetch_attempt realmId programId) w in
      exists e, outcome a = Thrown e /\ is_429 e = true /\
        rate_limited realmId programId delay n' (delayTime * 2)
          (final (run (call_delay delay delayTime) (final a)))
  end.

(** A record of [fetched] with this id was delivered to [channel] in
    [evs]: the send of its embed is there, without a fault. *)
Definition notified (fetched : list Proposal.t) (channel : Channel)
  (evs : list Event) (proposalId : string) : Prop :=
  exists p, In p fetched /\ Proposal.id p = proposalId /\
            In (EvSend (channel_id channel) (Embeds (embed_of p)) None) evs.

(** Marks follow notifications in [evs]: whatever list a write to the
    store carries, each id of it was [known] beforehand or belongs to a
    fetched record delivered before the write. *)
Definition marks_follow_notifications (known : list string)
  (fetched : list Proposal.t) (channel : Channel) (evs : list Event) : Prop :=
  forall pre ids fault post,
    evs = pre ++ EvWriteStore ids fault :: post ->
    forall proposalId, In proposalId ids ->
      In proposalId known \/ notified fetched channel pre proposalId.

(** The same, checked event by event with the events [before]. *)
Fixpoint marks_checked (known : list string) (fetched : list Proposal.t)
  (channel : Channel) (before evs : list Event) : Prop :=
  match evs with
  | [] => True
  | ev :: rest =>
      match ev with
      | EvWriteStore ids _ =>
          forall proposalId, In proposalId ids ->
            In proposalId known \/ notified fetched channel before proposalId
      | _ => True
      end /\ marks_checked known fetched channel (before ++ [ev]) rest
  end.

(** What [fetchProposals] returns in [w]; nothing when it throws. *)
Definition fetched_by (realmId programId : string) (w : World)
  : list Proposal.t :=
  match outcome (run (fetchProposals realmId programId) w) with
  | Returned proposals => proposals
  | Thrown _ => []
  end.

(** The [catch] clause of [processProposals] ran: it logs first. *)
Definition caught (evs : list Event) : bool :=
  existsb (fun ev => match ev with
                     | EvConsole (LogProcessError _) => true
                     | _ => false
                     end) evs.




(** Every suspended task has a number below the next one. *)
Definition well_numbered (l : Loop) : Prop :=
  Forall (fun t => fst t < next_task l) (tasks l).

(** ** A small world

    One realm with the governance accounts G1 and G2, and a program with
    the proposals P1 of G1, P2 of G2 and P3 of G3. *)

Definition example_channel : Channel := mkChannel "channel-1" true.
Definition example_config : Config :=
  mkConfig (Some "realm-1") (Some "program-1") (Some "channel-1").
Definition example_proposal (key governance : string) : RawProposal :=
  mkRawProposal key governance key None ["voting"] None.
Definition example_world : World :=
  mkWorld (Some []) (Some example_config)
    (fun _ realm =>
       if realm =? "realm-1"
       then [mkGovernanceAccount "G1"; mkGovernanceAccount "G2"]
       else [])
    (fun _ => [example_proposal "P1" "G1"; example_proposal "P2" "G2";
               example_proposal "P3" "G3"])
    (fun _ => true)
    (fun channelId =>
       if channelId =? "channel-1" then Returned (Some example_channel)
       else Thrown (JsError "Unknown Channel"))
    [] [] [] None [] 0.

(** The same with an RPC node that answers 429 to the first five calls. *)
Definition rate_limited_world : World :=
  set_rpc_faults (repeat (Some (HttpError 429)) 5) example_world.

(** The same with an RPC node that answers 500 to the first call. *)
Definition failing_rpc_world : World :=
  set_rpc_faults [Some (HttpError 500)] example_world.

(** The same with P1 already announced. *)
Definition seen_world : World :=
  set_proposal_store (Some ["P1"]) example_world.

(** The same where the write that marks P1 fails. *)
Definition failing_write_world : World :=
  set_write_faults [Some (JsError "ENOSPC: no space left on device")]
                   example_world.


(** [!reset] and [!fetch], typed by a user in [channel]. *)
Definition reset_message (channel : Channel) : DiscordMessage :=
  mkDiscordMessage false "!reset" channel.

Definition fetch_from (channel : Channel) : DiscordMessage :=
  mkDiscordMessage false "!fetch" channel.

Definition fetch_message : DiscordMessage :=
  fetch_from example_channel.

(** Tasks [a] and [b] resumed turn about, [n] times each. *)
Fixpoint alternate (n a b : nat) : list Stimulus :=
  match n with
  | O => []
  | S n' => Resume a :: Resume b :: alternate n' a b
  end.

(** The bot after [ready], with its first cycle awaiting the RPC node. *)
Definition running_loop : Loop :=
  match run_loop [ClientReady; Resume 0; Resume 1] (boot example_world) with
  | Some l => l
  | None => boot example_world
  end.

(** The bot starts, its first cycle reaches the RPC node, and a [!fetch]
    arrives and runs up to the RPC node too. *)
Definition overlapping_schedule : list Stimulus :=
  [ClientReady; Resume 0; Resume 1;
   MessageCreate fetch_message; Resume 2; Resume 2].

(** The titles of the notifications a trace delivered. *)
Definition notified_titles (evs : list Event) : list string :=
  flat_map (fun ev => match ev with
                      | EvSend _ (Embeds em) None => [em_title em]
                      | _ => []
                      end) evs.

(** The same for the history of a loop, with the task of each. *)
Definition notifications (h : list (nat * Event)) : list (nat * string) :=
  flat_map (fun e => match e with
                     | (t, EvSend _ (Embeds em) None) => [(t, em_title em)]
                     | _ => []
                     end) h.

(** ** What the rest of [bot.js] shows *)

(** The RPC calls of a trace, in order. *)
Definition rpc_events (evs : list Event) : list Event :=
  filter (fun ev => match ev with
                    | EvGetGovernanceAccounts _ _ _ => true
                    | EvGetAllProposals _ _ => true
                    | _ => false
                    end) evs.

(** A cycle began: [processProposals] logged its first line. *)
Definition cycle_started (evs : list Event) : bool :=
  existsb (fun ev => match ev with
                     | EvConsole LogProcessing => true
                     | _ => false
                     end) evs.

(** The operations [processProposals] and what it calls are written
    with. *)
Definition pipeline_effect {X : Type} (eff : Effect X) : bool :=
  match eff with
  | FsAccessStore | FsReadStore | FsWriteStore _
  | NewPublicKey _ | GetGovernanceAccountsByRealm _ _ | GetAllProposals _
  | ChannelSend _ _ | Console _ => true
  | _ => false
  end.

(** [p] performs only operations that [allowed] admits, whatever the
    operations answer. *)
Inductive only (allowed : forall X : Type, Effect X -> bool) (A : Type)
  : Prog A -> Prop :=
| only_ret (a : A) : only allowed (Ret a)
| only_throw (e : Err) : only allowed (Throw e)
| only_op (X : Type) (eff : Effect X) (k : Outcome X -> Prog A) :
    allowed X eff = true ->
    (forall r, only allowed (k r)) ->
    only allowed (Op eff k).

(** The events the operations of [pipeline_effect] leave. *)
Definition pipeline_event (ev : Event) : bool :=
  match ev with
  | EvAccessStore _ | EvReadStore _ | EvWriteStore _ _
  | EvNewPublicKey _ _ | EvGetGovernanceAccounts _ _ _ | EvGetAllProposals _ _
  | EvSend _ _ _ | EvConsole _ => true
  | _ => false
  end.

(** The operations of the [!fetch] branch: those of the pipeline, reading
    the configuration, looking the channel up and replying. *)
Definition fetch_effect {X : Type} (eff : Effect X) : bool :=
  pipeline_effect eff ||
  match eff with
  | FsReadConfig | ChannelsFetch _ | MessageReply _ _ => true
  | _ => false
  end.

(** [w'] has the timers, the [monitoringTimeout] and the [config.json] of
    [w]. *)
Definition same_schedule (w w' : World) : Prop :=
  monitoringTimeout w' = monitoringTimeout w /\
  pending_timers w' = pending_timers w /\
  next_handle w' = next_handle w /\
  config_file w' = config_file w.

(** [s] is [l] with some elements left out, the others in the order of
    [l]. *)
Inductive subsequence {A : Type} : list A -> list A -> Prop :=
| sub_nil (l : list A) : subsequence [] l
| sub_skip (x : A) (s l : list A) : subsequence s l -> subsequence s (x :: l)
| sub_take (x : A) (s l : list A) :
    subsequence s l -> subsequence (x :: s) (x :: l).

(** The notification of a record, as [sendDiscordNotification] sends it. *)
Definition notification_of (proposal : Proposal.t) : Message :=
  Embeds (embed_of proposal).

(** The timeouts a trace set. *)
Definition timeouts_set (evs : list Event) : list (nat * Z * Config) :=
  flat_map (fun ev => match ev with
                      | EvSetTimeout handle ms callback => [(handle, ms, callback)]
                      | _ => []
                      end) evs.

(** At most one timeout is pending, and [monitoringTimeout] holds its
    handle. *)
Definition single_timer (w : World) : Prop :=
  match pending_timers w with
  | [] => True
  | [(handle, _)] => monitoringTimeout w = Some handle
  | _ => False
  end.

(** [pending_timers] after [clearTimeout(monitoringTimeout)]. *)
Definition cleared (w : World) : list (nat * Config) :=
  match monitoringTimeout w with
  | Some handle =>
      filter (fun t => negb (fst t =? handle)%nat) (pending_timers w)
  | None => pending_timers w
  end.

(** A channel that is not text-based, and a world whose notification
    channel it is. *)
Definition voice_channel : Channel := mkChannel "channel-1" false.

Definition voice_world : World :=
  mkWorld (Some []) (Some example_config)
    (governance_accounts example_world) (program_proposals example_world)
    (fun _ => true) (fun _ => Returned (Some voice_channel))
    [] [] [] None [] 0.

(** The example world with the next check scheduled. *)
Definition armed_world : World :=
  set_monitoringTimeout (Some 0)
    (set_timers [(0, example_config)] 1 example_world).

(** What [loadConfig] returns in [w]. *)
Definition loaded (w : World) : Config :=
  match config_file w with
  | Some config => config
  | None => empty_config
  end.

(** Whether [content] is one of the three commands of the handler. *)
Definition is_command (content : string) : bool :=
  prefix "!setup" content || prefix "!setchannel" content
  || (content =? "!fetch").

(** The replies of a trace, the messages sent without [await], and the
    writes to [config.json]. *)
Definition replies (evs : list Event) : list Message :=
  flat_map (fun ev => match ev with
                      | EvReply m _ => [m]
                      | _ => []
                      end) evs.

Definition detached (evs : list Event) : list Message :=
  flat_map (fun ev => match ev with
                      | EvSendDetached _ m _ => [m]
                      | _ => []
                      end) evs.

Definition config_writes (evs : list Event) : list (Config * option Err) :=
  flat_map (fun ev => match ev with
                      | EvWriteConfig c fault => [(c, fault)]
                      | _ => []
                      end) evs.

(** [!setup <realm> <program>] and [!setchannel], typed by a user in
    [from]. *)
Definition setup_message (realm program : string) (from : Channel)
  : DiscordMessage :=
  mkDiscordMessage false ("!setup " ++ realm ++ " " ++ program)%string from.

Definition setchannel_message (from : Channel) : DiscordMessage :=
  mkDiscordMessage false "!setchannel" from.

Fixpoint has_space (s : string) : bool :=
  match s with
  | EmptyString => false
  | String c rest => Ascii.eqb c " "%char || has_space rest
  end.

(** The example world with a fourth proposal, of G1, whose voting ended
    at a time no [Date] can hold. *)
Definition far_future_proposal : RawProposal :=
  mkRawProposal "P4" "G1" "P4" None ["voting"] (Some 10000000000000%Z).

Definition far_future_world : World :=
  mkWorld (Some []) (Some example_config)
    (governance_accounts example_world)
    (fun program => program_proposals example_world program
                    ++ [far_future_proposal])
    (fun _ => true) (channel_lookup example_world)
    [] [] [] None [] 0.


Definition unconfigured_world : World :=
  set_config_file None example_world.

Definition all_seen_world : World :=
  set_proposal_store (Some ["P1"; "P2"]) example_world.

(** [!info], which the readme lists, and a [!setup] without its program. *)
Definition info_message : DiscordMessage :=
  mkDiscordMessage false "!info" example_channel.

Definition short_setup_message : DiscordMessage :=
  mkDiscordMessage false "!setup realm-1" example_channel.

(** ** Running compound programs *)

(** Appended traces, associated to the right. *)
Ltac list_norm :=
  repeat (rewrite app_nil_r || rewrite <- app_assoc || rewrite <- app_comm_cons).

Lemma run_bind {A B : Type} (p : Prog A) (f : A -> Prog B) (w : World) :
  run (bind p f) w =
  match outcome (run p w) with
  | Returned a =>
      let r := run (f a) (final (run p w)) in
      mkRun (events (run p w) ++ events r) (final r) (outcome r)
  | Thrown e => mkRun (events (run p w)) (final (run p w)) (Thrown e)
  end.
Proof.
  revert w. induction p as [a | e | X eff k IH]; intros w; simpl.
  - destruct (run (f a) w); reflexivity.
  - reflexivity.
  - destruct (perform eff w) as [[ev w1] r]. rewrite IH.
    destruct (outcome (run (k r) w1)); reflexivity.
Qed.

Lemma run_try_catch {A : Type} (p : Prog A) (h : Err -> Prog A) (w : World) :
  run (try_catch p h) w =
  match outcome (run p w) with
  | Returned a => run p w
  | Thrown e =>
      let r := run (h e) (final (run p w)) in
      mkRun (events (run p w) ++ events r) (final r) (outcome r)
  end.
Proof.
  revert w. induction p as [a | e | X eff k IH]; intros w; simpl.
  - reflexivity.
  - destruct (run (h e) w); reflexivity.
  - destruct (perform eff w) as [[ev w1] r]. rewrite IH.
    destruct (outcome (run (k r) w1)) eqn:E; simpl.
    + destruct (run (k r) w1); simpl in *. subst. reflexivity.
    + reflexivity.
Qed.



Lemma includes_In (l : list string) (x : string) :
  includes l x = true <-> In x l.
Proof.
  unfold includes. rewrite existsb_exists. split.
  - intros [y [Hy E]]. apply String.eqb_eq in E. subst. exact Hy.
  - intros H. exists x. split; [exact H | apply String.eqb_refl].
Qed.

Lemma includes_not_In (l : list string) (x : string) :
  includes l x = false <-> ~ In x l.
Proof.
  rewrite <- includes_In. destruct (includes l x); split; congruence.
Qed.

(** ** The fetcher *)

(** One turn of the retry loop. *)
Lemma run_fetch_loop_S (delay : Binding) (realmId programId : string)
  (retries : nat) (delayTime : Z) (w : World) :
  run (fetch_loop delay realmId programId (S retries) delayTime) w =
  let a := run (fetch_attempt realmId programId) w in
  match outcome a with
  | Returned proposals => mkRun (events a) (final a) (Returned proposals)
  | Thrown e =>
      if is_429 e then
        let s := run (call_delay delay delayTime) (final a) in
        match outcome s with
        | Returned _ =>
            let rest := run (fetch_loop delay realmId programId retries
                                        (delayTime * 2)) (final s) in
            mkRun (events a ++ EvConsole (LogRateLimited delayTime)
                     :: events s ++ events rest)
                  (final rest) (outcome rest)
        | Thrown e' =>
            mkRun (events a ++ EvConsole (LogRateLimited delayTime) :: events s)
                  (final s) (Thrown e')
        end
      else mkRun (events a ++ [EvConsole (LogFetchError e)]) (final a) (Thrown e)
  end.
Proof.
  cbn [fetch_loop]. rewrite run_bind, run_try_catch, run_bind.
  destruct (outcome (run (fetch_attempt realmId programId) w)) as [l | e] eqn:E;
    cbn -[fetch_loop fetch_attempt Z.mul].
  - rewrite !app_nil_r. reflexivity.
  - unfold fetch_catch. destruct (is_429 e); cbn -[fetch_loop fetch_attempt Z.mul].
    + rewrite run_bind.
      destruct (outcome (run (call_delay delay delayTime) _)) eqn:D;
        cbn -[fetch_loop fetch_attempt Z.mul].
      * list_norm. reflexivity.
      * list_norm. reflexivity.
    + reflexivity.
Qed.

(** [fetch_attempt] writes no file, sends nothing and waits for nothing. *)
Lemma fetch_attempt_quiet (realmId programId : string) (w : World) :
  let a := run (fetch_attempt realmId programId) w in
  store_writes (events a) = [] /\ sends (events a) = [] /\
  sleeps (events a) = [] /\ attempts (events a) = 1%nat /\
  proposal_store (final a) = proposal_store w /\
  send_faults (final a) = send_faults w /\
  write_faults (final a) = write_faults w /\
  monitoringTimeout (final a) = monitoringTimeout w /\
  pending_timers (final a) = pending_timers w /\
  next_handle (final a) = next_handle w.
Proof.
  destruct w as [store c ga pp vk cl rf sf wf mt pt nh].
  unfold fetch_attempt. cbn.
  destruct (vk realmId); cbn; [|repeat split].
  destruct rf as [|[e|] rf]; cbn; try (repeat split; fail).
  all: destruct (vk programId); cbn; try (repeat split; fail).
  all: try (destruct rf as [|[e|] rf]; cbn; try (repeat split; fail)).
  all: match goal with
       | |- context [map_outcome ?f ?l] => destruct (map_outcome f l)
       end; cbn; repeat split.
Qed.

Lemma store_writes_app (a b : list Event) :
  store_writes (a ++ b) = store_writes a ++ store_writes b.
Proof. apply flat_map_app. Qed.

Lemma sends_app (a b : list Event) : sends (a ++ b) = sends a ++ sends b.
Proof. apply flat_map_app. Qed.

Lemma delivered_app (a b : list Event) :
  delivered (a ++ b) = delivered a ++ delivered b.
Proof. apply flat_map_app. Qed.

Lemma sleeps_app (a b : list Event) : sleeps (a ++ b) = sleeps a ++ sleeps b.
Proof. apply flat_map_app. Qed.

Lemma attempts_app (a b : list Event) :
  attempts (a ++ b) = (attempts a + attempts b)%nat.
Proof. unfold attempts. rewrite filter_app, length_app. reflexivity. Qed.

(** A successful attempt returns the records of the proposals kept. *)
Lemma fetch_attempt_returned (realmId programId : string) (w : World)
  (l : list Proposal.t) :
  outcome (run (fetch_attempt realmId programId) w) = Returned l ->
  map_outcome to_record (kept w realmId programId) = Returned l.
Proof.
  destruct w as [store c ga pp vk cl rf sf wf mt pt nh].
  unfold fetch_attempt, kept. cbn.
  destruct (vk realmId); cbn; [|discriminate].
  destruct rf as [|[e|] rf]; cbn; try discriminate.
  all: destruct (vk programId); cbn; try discriminate.
  all: try (destruct rf as [|[e|] rf]; cbn; try discriminate).
  all: match goal with
       | |- context [map_outcome ?f ?l] => destruct (map_outcome f l)
       end; cbn; congruence.
Qed.

Lemma map_outcome_Forall2 {A B : Type} (f : A -> Outcome B) (l : list A)
  (l' : list B) :
  map_outcome f l = Returned l' ->
  Forall2 (fun x y => f x = Returned y) l l'.
Proof.
  revert l'. induction l as [|x l IH]; intros l' H; simpl in H.
  - injection H as <-. constructor.
  - destruct (f x) as [y|] eqn:Fx; [|discriminate].
    destruct (map_outcome f l) as [ys|]; [|discriminate].
    injection H as <-. constructor; auto.
Qed.

Lemma to_record_id (p : RawProposal) (r : Proposal.t) :
  to_record p = Returned r -> Proposal.id r = rp_publicKey p.
Proof.
  unfold to_record. destruct (votingEndTime_of _); [|discriminate].
  intros H. injection H as <-. reflexivity.
Qed.

Lemma records_ids (ps : list RawProposal) (rs : list Proposal.t) :
  Forall2 (fun p r => to_record p = Returned r) ps rs ->
  map Proposal.id rs = map rp_publicKey ps.
Proof.
  induction 1 as [|p r ps rs Hpr _ IH]; simpl; [reflexivity|].
  rewrite IH. f_equal. apply to_record_id. exact Hpr.
Qed.

(** With no binding for [delay], [fetchProposals] makes one attempt. *)
Lemma run_fetchProposals (realmId programId : string) (w : World) :
  valid_key w programId = true ->
  run (fetchProposals realmId programId) w =
  let a := run (fetch_attempt realmId programId) w in
  match outcome a with
  | Returned proposals =>
      mkRun (EvNewPublicKey programId true :: events a) (final a)
            (Returned proposals)
  | Thrown e =>
      if is_429 e then
        mkRun (EvNewPublicKey programId true
                 :: events a ++ [EvConsole (LogRateLimited 500)])
              (final a) (Thrown (ReferenceError "delay"))
      else
        mkRun (EvNewPublicKey programId true
                 :: events a ++ [EvConsole (LogFetchError e)])
              (final a) (Thrown e)
  end.
Proof.
  intros Hv. unfold fetchProposals, fetchProposals_in.
  rewrite run_bind. cbn [run call perform]. rewrite Hv.
  cbn [outcome events final run]. cbv zeta.
  rewrite run_fetch_loop_S. cbv zeta.
  destruct (outcome (run (fetch_attempt realmId programId) w)) as [l|e];
    [reflexivity|].
  destruct (is_429 e); reflexivity.
Qed.

Lemma run_fetchProposals_invalid (realmId programId : string) (w : World) :
  valid_key w programId = false ->
  run (fetchProposals realmId programId) w =
  mkRun [EvNewPublicKey programId false] w
        (Thrown (JsError "Invalid public key input")).
Proof.
  intros Hv. unfold fetchProposals, fetchProposals_in.
  rewrite run_bind. cbn [run call perform]. rewrite Hv. reflexivity.
Qed.

(** C7.  A successful [fetchProposals] returns, in the order of
    [getAllProposals], the records of exactly those proposals of the program
    whose governance account is one of the accounts
    [getGovernanceAccountsByRealm] lists for the realm: record by record
    they are the conversions of [kept], their ids are the public keys of
    [kept], and a proposal is in [kept] if and only if it is a proposal of
    the program owned by an account of the realm. *)
Theorem fetch_keeps_realm_proposals (w : World) (realmId programId : string)
  (l : list Proposal.t) :
  outcome (run (fetchProposals realmId programId) w) = Returned l ->
  Forall2 (fun p r => to_record p = Returned r) (kept w realmId programId) l
  /\ map Proposal.id l = map rp_publicKey (kept w realmId programId)
  /\ forall p : RawProposal,
       In p (kept w realmId programId) <->
       In p (program_proposals w programId) /\
       exists g, In g (governance_accounts w programId realmId) /\
                 ga_publicKey g = rp_governance p.
Proof.
  intros H.
  assert (Hk : map_outcome to_record (kept w realmId programId) = Returned l).
  { destruct (valid_key w programId) eqn:Hv.
    - rewrite run_fetchProposals in H by exact Hv. cbv zeta in H.
      destruct (outcome (run (fetch_attempt realmId programId) w)) as [l'|e] eqn:E.
      + simpl in H. injection H as <-. apply fetch_attempt_returned. exact E.
      + destruct (is_429 e); discriminate.
    - rewrite run_fetchProposals_invalid in H by exact Hv. discriminate. }
  apply map_outcome_Forall2 in Hk. split; [exact Hk|]. split.
  - apply records_ids. exact Hk.
  - intros p. unfold kept. rewrite filter_In. unfold in_realm.
    rewrite includes_In, in_map_iff. split.
    + intros [Hp [g [Hg Hin]]]. split; [exact Hp|]. exists g. auto.
    + intros [Hp [g [Hin Hg]]]. split; [exact Hp|]. exists g. auto.
Qed.

(** In the small world the fetch returns P1 and P2 and leaves P3 out. *)
Lemma fetch_keeps_realm_proposals_example :
  map Proposal.id (fetched_by "realm-1" "program-1" example_world)
    = ["P1"; "P2"]
  /\ ~ In (example_proposal "P3" "G3")
          (kept example_world "realm-1" "program-1").
Proof.
  destruct (@fetch_keeps_realm_proposals example_world "realm-1" "program-1"
              (fetched_by "realm-1" "program-1" example_world) eq_refl)
    as [_ [Hids Hin]].
  split.
  - exact Hids.
  - intros H. apply Hin in H. destruct H as [_ [g [Hg E]]].
    simpl in Hg. destruct Hg as [<-|[<-|[]]]; discriminate E.
Defined.

(** C6.  When an attempt of [fetchProposals] ends in an error that is not
    a 429, the loop ends with that very error, in the world the attempt
    left, having logged it and nothing more: no wait and no second attempt.
    This holds for every turn of the loop and whatever [delay] is bound to;
    for [fetchProposals] as [bot.js] has it the attempt is the first one. *)
Theorem non_rate_limit_error_propagates (delay : Binding)
  (realmId programId : string) (retries : nat) (delayTime : Z) (w : World)
  (e : Err) :
  outcome (run (fetch_attempt realmId programId) w) = Thrown e ->
  is_429 e = false ->
  let a := run (fetch_attempt realmId programId) w in
  (let r := run (fetch_loop delay realmId programId (S retries) delayTime) w in
   outcome r = Thrown e /\ final r = final a /\
   events r = events a ++ [EvConsole (LogFetchError e)] /\
   sleeps (events r) = [] /\ attempts (events r) = 1%nat)
  /\
  (valid_key w programId = true ->
   let r := run (fetchProposals realmId programId) w in
   outcome r = Thrown e /\ final r = final a /\
   sleeps (events r) = [] /\ attempts (events r) = 1%nat).
Proof.
  intros Ha He. cbv zeta.
  destruct (fetch_attempt_quiet realmId programId w)
    as [_ [_ [Hsl [Hat _]]]].
  split.
  - rewrite run_fetch_loop_S. cbv zeta. rewrite Ha, He.
    cbn [outcome final events]. repeat split.
    + rewrite sleeps_app, Hsl. reflexivity.
    + rewrite attempts_app, Hat. reflexivity.
  - intros Hv. rewrite run_fetchProposals by exact Hv. cbv zeta.
    rewrite Ha, He. cbn [outcome final events]. repeat split.
    + change (sleeps (EvNewPublicKey programId true :: ?x)) with (sleeps x).
      rewrite sleeps_app, Hsl. reflexivity.
    + change (attempts (EvNewPublicKey programId true :: ?x))
        with (attempts x).
      rewrite attempts_app, Hat. reflexivity.
Qed.

Lemma non_rate_limit_error_propagates_example :
  let r := run (fetchProposals "realm-1" "program-1") failing_rpc_world in
  outcome r = Thrown (HttpError 500) /\
  sleeps (events r) = [] /\ attempts (events r) = 1%nat.
Proof.
  destruct (@non_rate_limit_error_propagates delay_in_bot_js "realm-1"
              "program-1" 4 500%Z failing_rpc_world (HttpError 500)
              eq_refl eq_refl) as [_ H].
  destruct (H eq_refl) as [Ho [_ [Hs Ha]]]. auto.
Defined.

(** With [delay] bound to a timer the loop backs off as written. *)
Lemma backoff_with_delay (realmId programId : string) (retries : nat) :
  forall (delayTime : Z) (w : World),
  rate_limited realmId programId delay_by_timer retries delayTime w ->
  let r := run (fetch_loop delay_by_timer realmId programId retries delayTime) w in
  sleeps (events r) = backoff retries delayTime /\
  attempts (events r) = retries /\
  outcome r = Returned [].
Proof.
  induction retries as [|n IH]; intros delayTime w H; cbv zeta.
  - cbn. auto.
  - destruct H as [e [Ha [He Hrest]]].
    destruct (fetch_attempt_quiet realmId programId w)
      as [_ [_ [Hsl [Hat _]]]].
    rewrite run_fetch_loop_S. cbv zeta. rewrite Ha, He.
    cbn [call_delay delay_by_timer run call perform outcome final events] in *.
    destruct (IH _ _ Hrest) as [Hs [Hn Ho]].
    repeat split.
    + rewrite sleeps_app, Hsl. cbn [app].
      change (sleeps (EvConsole (LogRateLimited delayTime) :: EvSleep delayTime :: ?x))
        with (delayTime :: sleeps x).
      cbn [app]. rewrite Hs. reflexivity.
    + rewrite attempts_app, Hat.
      change (attempts (EvConsole (LogRateLimited delayTime) :: ?x))
        with (attempts x).
      cbn [app].
      change (attempts (EvSleep delayTime :: ?x)) with (attempts x).
      rewrite Hn. reflexivity.
    + exact Ho.
Qed.

(** C5 (the code departs from it).  When the attempt of [fetchProposals]
    ends in a 429, the call of the unbound [delay] throws a ReferenceError:
    [fetchProposals] throws it after one attempt and no wait, where the
    claim has five waits and an empty result.  [backoff_with_delay] above
    is the behaviour the loop was written for. *)
Theorem rate_limit_raises_ReferenceError (realmId programId : string)
  (w : World) (e : Err) :
  valid_key w programId = true ->
  outcome (run (fetch_attempt realmId programId) w) = Thrown e ->
  is_429 e = true ->
  let r := run (fetchProposals realmId programId) w in
  outcome r = Thrown (ReferenceError "delay") /\
  sleeps (events r) = [] /\
  attempts (events r) = 1%nat.
Proof.
  intros Hv Ha He. cbv zeta.
  destruct (fetch_attempt_quiet realmId programId w)
    as [_ [_ [Hsl [Hat _]]]].
  rewrite run_fetchProposals by exact Hv. cbv zeta. rewrite Ha, He.
  cbn [outcome final events]. repeat split.
  - change (sleeps (EvNewPublicKey programId true :: ?x)) with (sleeps x).
    rewrite sleeps_app, Hsl. reflexivity.
  - change (attempts (EvNewPublicKey programId true :: ?x)) with (attempts x).
    rewrite attempts_app, Hat. reflexivity.
Qed.

Lemma rate_limit_raises_ReferenceError_at_429 :
  let r := run (fetchProposals "realm-1" "program-1") rate_limited_world in
  outcome r = Thrown (ReferenceError "delay") /\
  sleeps (events r) = [] /\
  attempts (events r) = 1%nat.
Proof.
  apply (@rate_limit_raises_ReferenceError "realm-1" "program-1"
           rate_limited_world (HttpError 429)); reflexivity.
Defined.

(** Five 429s in a row, with [delay] bound: the waits of the claim. *)
Example backoff_with_delay_example :
  let r := run (fetch_loop delay_by_timer "realm-1" "program-1" 5 500)
               rate_limited_world in
  sleeps (events r) = [500; 1000; 2000; 4000; 8000]%Z /\
  attempts (events r) = 5%nat /\ outcome r = Returned [].
Proof.
  apply (@backoff_with_delay "realm-1" "program-1" 5 500%Z rate_limited_world).
  cbn. repeat (eexists; split; [reflexivity | split; [reflexivity|]]). exact I.
Qed.

(** ** The pipeline *)

(** *** Lists and traces *)

Lemma app_split_at {A : Type} (a b pre post : list A) (x : A) :
  a ++ b = pre ++ x :: post ->
  (exists post', a = pre ++ x :: post' /\ post = post' ++ b) \/
  (exists pre', pre = a ++ pre' /\ b = pre' ++ x :: post).
Proof.
  revert pre. induction a as [|y a IH]; intros pre E; simpl in E.
  - right. exists pre. auto.
  - destruct pre as [|z pre]; simpl in E.
    + injection E as -> E. left. exists a. subst. auto.
    + injection E as -> E. destruct (IH _ E) as [[post' [-> ->]]|[pre' [-> ->]]].
      * left. exists post'. auto.
      * right. exists pre'. auto.
Qed.




Lemma caught_app (a b : list Event) : caught (a ++ b) = caught a || caught b.
Proof. apply existsb_app. Qed.

(** *** Marks and notifications *)

Lemma notified_mono fetched fetched' channel evs evs' proposalId :
  incl fetched fetched' -> incl evs evs' ->
  notified fetched channel evs proposalId ->
  notified fetched' channel evs' proposalId.
Proof.
  intros Hf He [p [Hp [Hid Hs]]]. exists p. auto.
Qed.

Lemma marks_checked_sound known fetched channel evs :
  forall before,
  marks_checked known fetched channel before evs ->
  forall pre ids fault post,
    evs = pre ++ EvWriteStore ids fault :: post ->
    forall proposalId, In proposalId ids ->
      In proposalId known \/ notified fetched channel (before ++ pre) proposalId.
Proof.
  induction evs as [|ev evs IH]; intros before H pre ids fault post E.
  - destruct pre; discriminate.
  - destruct H as [Hev Hrest]. destruct pre as [|x pre]; simpl in E.
    + injection E as -> _. rewrite app_nil_r. exact Hev.
    + injection E as Hx E. subst x. intros pid Hin.
      replace (before ++ ev :: pre) with ((before ++ [ev]) ++ pre)
        by (rewrite <- app_assoc; reflexivity).
      eapply IH; eauto.
Qed.

Lemma marks_app known known' fetched channel a b :
  marks_follow_notifications known fetched channel a ->
  (forall x, In x known' -> In x known \/ notified fetched channel a x) ->
  marks_follow_notifications known' fetched channel b ->
  marks_follow_notifications known fetched channel (a ++ b).
Proof.
  intros Ha Hk Hb pre ids fault post E x Hx.
  apply app_split_at in E. destruct E as [[post' [-> ->]]|[pre' [-> ->]]].
  - eapply Ha; eauto.
  - destruct (Hb _ _ _ _ eq_refl x Hx) as [H|H].
    + destruct (Hk _ H) as [H'|H']; [left; exact H'|right].
      eapply notified_mono; [apply incl_refl | | exact H'].
      apply incl_appl, incl_refl.
    + right. eapply notified_mono; [apply incl_refl | | exact H].
      apply incl_appr, incl_refl.
Qed.

Lemma marks_incl known fetched fetched' channel evs :
  incl fetched fetched' ->
  marks_follow_notifications known fetched channel evs ->
  marks_follow_notifications known fetched' channel evs.
Proof.
  intros Hi H pre ids fault post E x Hx.
  destruct (H _ _ _ _ E x Hx) as [H'|H']; [left; exact H'|right].
  eapply notified_mono; [exact Hi | apply incl_refl | exact H'].
Qed.

Lemma marks_no_writes known fetched channel evs :
  store_writes evs = [] ->
  marks_follow_notifications known fetched channel evs.
Proof.
  intros H pre ids fault post E. subst evs.
  rewrite store_writes_app in H. apply app_eq_nil in H. destruct H as [_ H].
  discriminate H.
Qed.

Lemma marks_frame known fetched channel a b c :
  store_writes a = [] -> store_writes c = [] ->
  marks_follow_notifications known fetched channel b ->
  marks_follow_notifications known fetched channel (a ++ b ++ c).
Proof.
  intros Ha Hc Hb.
  eapply marks_app; [apply marks_no_writes; exact Ha | left; eassumption |].
  eapply marks_app; [exact Hb | left; eassumption |].
  apply marks_no_writes. exact Hc.
Qed.

Lemma notified_frame fetched channel a b c x :
  notified fetched channel b x -> notified fetched channel (a ++ b ++ c) x.
Proof.
  apply notified_mono; [apply incl_refl|].
  apply incl_appr, incl_appl, incl_refl.
Qed.

Lemma marks_cycle known fetched channel a x b c :
  store_writes a = [] -> store_writes [x] = [] -> store_writes c = [] ->
  marks_follow_notifications known fetched channel b ->
  marks_follow_notifications known fetched channel (a ++ x :: b ++ c).
Proof.
  intros Ha Hx Hc Hb.
  change (a ++ x :: b ++ c) with (a ++ [x] ++ b ++ c). rewrite app_assoc.
  apply marks_frame; auto. rewrite store_writes_app, Ha, Hx. reflexivity.
Qed.

Lemma notified_cycle fetched channel a x b c y :
  notified fetched channel b y ->
  notified fetched channel (a ++ x :: b ++ c) y.
Proof.
  change (a ++ x :: b ++ c) with (a ++ [x] ++ b ++ c). rewrite app_assoc.
  apply notified_frame.
Qed.

(** *** The loop over the fetched proposals *)

(** One turn of the [for] loop. *)
Lemma run_process_each_cons (channel : Channel) (proposal : Proposal.t)
  (rest : list Proposal.t) (count : nat) (w : World) :
  run (process_each channel (proposal :: rest) count) w =
  let i := run (process_one channel proposal) w in
  match outcome i with
  | Returned isNew =>
      let k := run (process_each channel rest
                      (if isNew then S count else count)) (final i) in
      mkRun (events i ++ events k) (final k) (outcome k)
  | Thrown e => mkRun (events i) (final i) (Thrown e)
  end.
Proof.
  cbn [process_each]. unfold process_one. rewrite !run_bind. cbv zeta.
  destruct (outcome (run (isNewProposal (Proposal.id proposal)) w))
    as [[|]|e]; cbn [outcome events final].
  - repeat (rewrite run_bind; cbv zeta).
    repeat match goal with
    | |- context [match outcome ?r with _ => _ end] =>
        destruct (outcome r); cbn [outcome events final run]
    end; list_norm; reflexivity.
  - cbn [run events final outcome]. list_norm. reflexivity.
  - reflexivity.
Qed.

Ltac find_event := cbn; repeat (first [left; reflexivity | right]).

Ltac known_or_notified p :=
  first [ left; assumption
        | right; exists p;
          split; [left; reflexivity | split; [reflexivity | find_event]] ].

Ltac split_membership H :=
  rewrite ?in_app_iff in H; cbn in H; decompose [or] H; subst;
  try contradiction.

Ltac step_facts p :=
  repeat match goal with |- _ /\ _ => split end;
  [ intros x Hx; rewrite ?in_app_iff; auto
  | refine (@marks_checked_sound _ _ _ _ [] _); cbn;
    repeat split; intros x Hx; split_membership Hx; known_or_notified p
  | intros x Hx; split_membership Hx; known_or_notified p
  | intros b Hb; try discriminate Hb; injection Hb as <-;
    repeat split; rewrite ?in_app_iff; cbn; auto; try discriminate
  | repeat constructor ].

(** What one turn of the loop does to the store and to the trace, in
    every world. *)
Lemma process_one_step (channel : Channel) (p : Proposal.t) (w : World) :
  let r := run (process_one channel p) w in
  (forall x, In x (store_ids w) -> In x (store_ids (final r))) /\
  marks_follow_notifications (store_ids w) [p] channel (events r) /\
  (forall x, In x (store_ids (final r)) ->
     In x (store_ids w) \/ notified [p] channel (events r) x) /\
  (forall b, outcome r = Returned b ->
     In (Proposal.id p) (store_ids (final r)) /\
     (b = false -> In (Proposal.id p) (store_ids w)) /\
     sends (events r) = (if b then [Embeds (embed_of p)] else []) /\
     delivered (events r) = sends (events r)) /\
  Forall (fun m => is_notification m = true) (sends (events r)).
Proof.
  destruct w as [store c ga pp vk cl rf sf wf mt pt nh].
  unfold process_one, store_ids, isNewProposal, saveProposal,
    initializeProposalStore, sendDiscordNotification.
  destruct store as [ids|]; cbn.
  - destruct (includes ids (Proposal.id p)) eqn:Hinc; cbn.
    + apply includes_In in Hinc. step_facts p.
    + destruct sf as [|[e|] sf]; cbn; rewrite ?Hinc; cbn;
        try (destruct wf as [|[e'|] wf]; cbn); step_facts p.
  - assert (Hnil : includes [] (Proposal.id p) = false) by reflexivity.
    destruct wf as [|[e|] wf]; cbn; rewrite ?Hnil; cbn;
      try (destruct sf as [|[e'|] sf]; cbn; rewrite ?Hnil; cbn);
      try (destruct wf as [|[e''|] wf]; cbn); step_facts p.
Qed.

(** The same for the whole loop. *)
Lemma process_each_facts (channel : Channel) (ps : list Proposal.t) :
  forall (count : nat) (w : World),
  let r := run (process_each channel ps count) w in
  (forall x, In x (store_ids w) -> In x (store_ids (final r))) /\
  marks_follow_notifications (store_ids w) ps channel (events r) /\
  (forall x, In x (store_ids (final r)) ->
     In x (store_ids w) \/ notified ps channel (events r) x) /\
  (forall n, outcome r = Returned n ->
     (forall p, In p ps -> In (Proposal.id p) (store_ids (final r))) /\
     n = (count + length (sends (events r)))%nat /\
     delivered (events r) = sends (events r)) /\
  Forall (fun m => is_notification m = true) (sends (events r)).
Proof.
  induction ps as [|p ps IH]; intros count w; cbv zeta.
  - cbn. repeat split; auto.
    + apply marks_no_writes. reflexivity.
    + intros p [].
    + injection H as <-. lia.
  - rewrite run_process_each_cons. cbv zeta.
    destruct (process_one_step channel p w) as [S0 [S1 [S2 [S3 S4]]]].
    destruct (outcome (run (process_one channel p) w)) as [b|e] eqn:Eo;
      cbn [events final outcome].
    + specialize (S3 b eq_refl). destruct S3 as [Sin [Sknown [Ssends Sdel]]].
      specialize (IH (if b then S count else count)
                     (final (run (process_one channel p) w))).
      cbv zeta in IH. destruct IH as [I0 [I1 [I2 [I3 I4]]]].
      repeat split.
      * auto.
      * eapply marks_app.
        -- eapply marks_incl; [|exact S1]. intros q [<-|[]]. left. reflexivity.
        -- intros x Hx. destruct (S2 x Hx) as [H|H]; [left; exact H|right].
           eapply notified_mono; [|apply incl_refl|exact H].
           intros q [<-|[]]. left. reflexivity.
        -- eapply marks_incl; [|exact I1]. apply incl_tl, incl_refl.
      * intros x Hx. destruct (I2 x Hx) as [H|H].
        -- destruct (S2 x H) as [H'|H']; [left; exact H'|right].
           eapply notified_mono; [| |exact H'].
           ++ intros q [<-|[]]. left. reflexivity.
           ++ apply incl_appl, incl_refl.
        -- right. eapply notified_mono; [| |exact H].
           ++ apply incl_tl, incl_refl.
           ++ apply incl_appr, incl_refl.
      * destruct (I3 n H) as [Hall _]. intros q [<-|Hq]; auto.
      * destruct (I3 n H) as [_ [Hn _]]. rewrite sends_app, length_app, Ssends.
        destruct b; cbn [length]; lia.
      * destruct (I3 n H) as [_ [_ Hd]].
        rewrite sends_app, delivered_app, Sdel, Hd. reflexivity.
      * rewrite sends_app. apply Forall_app. auto.
    + repeat split; auto.
      * eapply marks_incl; [|exact S1]. intros q [<-|[]]. left. reflexivity.
      * intros x Hx. destruct (S2 x Hx) as [H|H]; [left; exact H|right].
        eapply notified_mono; [|apply incl_refl|exact H].
        intros q [<-|[]]. left. reflexivity.
      * discriminate.
      * discriminate.
      * discriminate.
Qed.

(** The loop catches nothing: [LogProcessError] is not among its events. *)
Lemma process_one_not_caught (channel : Channel) (p : Proposal.t) (w : World) :
  caught (events (run (process_one channel p) w)) = false.
Proof.
  destruct w as [store c ga pp vk cl rf sf wf mt pt nh].
  unfold process_one, isNewProposal, saveProposal,
    initializeProposalStore, sendDiscordNotification.
  assert (Hnil : includes [] (Proposal.id p) = false) by reflexivity.
  destruct store as [ids|]; cbn.
  - destruct (includes ids (Proposal.id p)) eqn:Hinc; cbn; [reflexivity|].
    destruct sf as [|[e|] sf]; cbn; rewrite ?Hinc; cbn;
      try (destruct wf as [|[e'|] wf]; cbn); reflexivity.
  - destruct wf as [|[e|] wf]; cbn; rewrite ?Hnil; cbn;
      try (destruct sf as [|[e'|] sf]; cbn; rewrite ?Hnil; cbn);
      try (destruct wf as [|[e''|] wf]; cbn); reflexivity.
Qed.

Lemma process_each_not_caught (channel : Channel) (ps : list Proposal.t) :
  forall (count : nat) (w : World),
  caught (events (run (process_each channel ps count) w)) = false.
Proof.
  induction ps as [|p ps IH]; intros count w; [reflexivity|].
  rewrite run_process_each_cons. cbv zeta.
  pose proof (process_one_not_caught channel p w) as H1.
  destruct (outcome (run (process_one channel p) w)) as [b|e];
    cbn [events]; [|exact H1].
  rewrite caught_app, H1, IH. reflexivity.
Qed.

(** A store without duplicates stays so through the loop. *)
Lemma process_one_NoDup (channel : Channel) (p : Proposal.t) (w : World) :
  NoDup (store_ids w) ->
  NoDup (store_ids (final (run (process_one channel p) w))).
Proof.
  destruct w as [store c ga pp vk cl rf sf wf mt pt nh].
  unfold process_one, store_ids, isNewProposal, saveProposal,
    initializeProposalStore, sendDiscordNotification.
  intros Hnd. cbn in Hnd.
  assert (Hnil : includes [] (Proposal.id p) = false) by reflexivity.
  destruct store as [ids|]; cbn.
  - destruct (includes ids (Proposal.id p)) eqn:Hinc; cbn; [exact Hnd|].
    apply includes_not_In in Hinc.
    destruct sf as [|[e|] sf]; cbn; try exact Hnd.
    all: destruct (includes ids (Proposal.id p)); cbn; try exact Hnd.
    all: destruct wf as [|[e'|] wf]; cbn; try exact Hnd.
    all: apply NoDup_app; [exact Hnd | repeat constructor; intros [] |].
    all: intros a Ha [<-|[]]; contradiction.
  - destruct wf as [|[e|] wf]; cbn; rewrite ?Hnil; cbn;
      try (destruct sf as [|[e'|] sf]; cbn; rewrite ?Hnil; cbn);
      try (destruct wf as [|[e''|] wf]; cbn);
      repeat constructor; intros [].
Qed.

Lemma process_each_NoDup (channel : Channel) (ps : list Proposal.t) :
  forall (count : nat) (w : World),
  NoDup (store_ids w) ->
  NoDup (store_ids (final (run (process_each channel ps count) w))).
Proof.
  induction ps as [|p ps IH]; intros count w Hnd.
  - exact Hnd.
  - rewrite run_process_each_cons. cbv zeta.
    pose proof (@process_one_NoDup channel p w Hnd) as H1.
    destruct (outcome (run (process_one channel p) w)) as [b|e];
      cbn [final]; [apply IH|]; exact H1.
Qed.

(** [fetchProposals] touches neither the store nor the channel. *)
Lemma fetchProposals_quiet (realmId programId : string) (w : World) :
  let f := run (fetchProposals realmId programId) w in
  store_writes (events f) = [] /\ sends (events f) = [] /\
  caught (events f) = false /\
  proposal_store (final f) = proposal_store w /\
  send_faults (final f) = send_faults w.
Proof.
  cbv zeta. destruct (valid_key w programId) eqn:Hv.
  - rewrite run_fetchProposals by exact Hv. cbv zeta.
    pose proof (fetch_attempt_quiet realmId programId w) as Q. cbv zeta in Q.
    destruct Q as [Qw [Qs [_ [_ [Qp [Qf _]]]]]].
    assert (Qc : caught (events (run (fetch_attempt realmId programId) w)) = false).
    { destruct w as [store c ga pp vk cl rf sf wf mt pt nh].
      unfold fetch_attempt. cbn.
      destruct (vk realmId); cbn; [|reflexivity].
      destruct rf as [|[e|] rf]; cbn; try reflexivity.
      all: destruct (vk programId); cbn; try reflexivity.
      all: try (destruct rf as [|[e|] rf]; cbn; try reflexivity).
      all: match goal with
           | |- context [map_outcome ?f ?l] => destruct (map_outcome f l)
           end; reflexivity. }
    destruct (outcome (run (fetch_attempt realmId programId) w)) as [l|e];
      [|destruct (is_429 e)]; cbn [events final outcome].
    all: change (store_writes (EvNewPublicKey programId true :: ?x))
           with (store_writes x);
         change (sends (EvNewPublicKey programId true :: ?x)) with (sends x);
         change (caught (EvNewPublicKey programId true :: ?x)) with (caught x).
    all: rewrite ?store_writes_app, ?sends_app, ?Qw, ?Qs.
    all: unfold caught in *; rewrite ?existsb_app, ?Qc; auto.
  - rewrite run_fetchProposals_invalid by exact Hv. cbn. auto.
Qed.

(** *** One cycle *)

Section Cycle.

Variable channel : Channel.
Variables realmId programId : string.

(** The [try] block, case by case. *)
Lemma run_process_try (w : World) :
  run (process_try channel realmId programId) w =
  let f := run (fetchProposals realmId programId) w in
  match outcome f with
  | Thrown e => mkRun (events f) (final f) (Thrown e)
  | Returned proposals =>
      if (length proposals =? 0)%nat then
        let (fault, rest) := next_fault (send_faults (final f)) in
        mkRun (events f ++
                 [EvConsole (LogFetched (length proposals));
                  EvConsole LogNoProposals;
                  EvSend (channel_id channel) (Text no_proposals_text) fault])
              (set_send_faults rest (final f)) (outcome_of_fault fault)
      else
        let k := run (process_each channel proposals 0) (final f) in
        match outcome k with
        | Thrown e =>
            mkRun (events f ++ EvConsole (LogFetched (length proposals))
                     :: events k)
                  (final k) (Thrown e)
        | Returned n =>
            if (0 <? n)%nat then
              let (fault, rest) := next_fault (send_faults (final k)) in
              mkRun (events f ++ EvConsole (LogFetched (length proposals))
                       :: events k ++
                       [EvSend (channel_id channel) (Detected n) fault])
                    (set_send_faults rest (final k)) (outcome_of_fault fault)
            else
              mkRun (events f ++ EvConsole (LogFetched (length proposals))
                       :: events k ++ [EvConsole LogNoNewProposals])
                    (final k) (Returned tt)
        end
  end.
Proof.
  unfold process_try. rewrite run_bind. cbv zeta.
  destruct (outcome (run (fetchProposals realmId programId) w))
    as [proposals|e]; [|reflexivity].
  rewrite run_bind. cbn [console call run perform outcome final events].
  destruct (length proposals =? 0)%nat.
  - cbn. destruct (next_fault (send_faults _)) as [[e|] rest]; reflexivity.
  - rewrite run_bind. cbv zeta.
    destruct (outcome (run (process_each channel proposals 0) _)) as [n|e];
      [|cbn; reflexivity].
    destruct (0 <? n)%nat; cbn.
    + destruct (next_fault (send_faults _)) as [[e|] rest]; reflexivity.
    + reflexivity.
Qed.

(** [processProposals], from its [try] block. *)
Lemma run_processProposals (w : World) :
  run (processProposals channel realmId programId) w =
  let t := run (process_try channel realmId programId) w in
  match outcome t with
  | Returned _ =>
      mkRun (EvConsole LogProcessing :: events t) (final t) (Returned tt)
  | Thrown e =>
      let (fault, rest) := next_fault (send_faults (final t)) in
      mkRun (EvConsole LogProcessing :: events t ++
               [EvConsole (LogProcessError e);
                EvSend (channel_id channel) (Text error_text) fault])
            (set_send_faults rest (final t)) (outcome_of_fault fault)
  end.
Proof.
  unfold processProposals. rewrite run_bind.
  cbn [console call run perform outcome final events]. cbv zeta.
  rewrite run_try_catch.
  destruct (outcome (run (process_try channel realmId programId) w))
    as [[]|e] eqn:E.
  - cbn [outcome events final app]. rewrite E. reflexivity.
  - cbv zeta. unfold process_catch. rewrite run_bind.
    cbn [console call run perform outcome final events app].
    destruct (next_fault (send_faults _)) as [[e'|] rest];
      cbn [outcome events final app outcome_of_fault run]; reflexivity.
Qed.

Ltac try_cases realmId programId channel w :=
  rewrite run_process_try; cbv zeta;
  let Ef := fresh "Ef" in
  let Ek := fresh "Ek" in
  let El := fresh "El" in
  unfold fetched_by;
  destruct (outcome (run (fetchProposals realmId programId) w))
    as [ps|e] eqn:Ef;
  [ destruct (length ps =? 0)%nat eqn:El;
    [ destruct (next_fault (send_faults
                  (final (run (fetchProposals realmId programId) w))))
        as [[e|] rest]
    | destruct (outcome (run (process_each channel ps 0)
                  (final (run (fetchProposals realmId programId) w))))
        as [n|e] eqn:Ek;
      [ destruct (0 <? n)%nat eqn:En;
        [ destruct (next_fault (send_faults
                      (final (run (process_each channel ps 0)
                         (final (run (fetchProposals realmId programId) w))))))
            as [[e|] rest]
        | ]
      | ] ]
  | ]; cbn [events final outcome outcome_of_fault].

(** The [try] block of a cycle. *)
Lemma process_try_marks (w : World) :
  let t := run (process_try channel realmId programId) w in
  let fetched := fetched_by realmId programId w in
  marks_follow_notifications (store_ids w) fetched channel (events t) /\
  (forall x, In x (store_ids (final t)) ->
     In x (store_ids w) \/ notified fetched channel (events t) x) /\
  (forall v, outcome t = Returned v ->
     forall p, In p fetched -> In (Proposal.id p) (store_ids (final t))).
Proof.
  cbv zeta.
  destruct (fetchProposals_quiet realmId programId w) as [Fw [Fs [Fc [Fp _]]]].
  assert (Fi : store_ids (final (run (fetchProposals realmId programId) w))
               = store_ids w) by (unfold store_ids; rewrite Fp; reflexivity).
  try_cases realmId programId channel w.
  1-2: apply Nat.eqb_eq, length_zero_iff_nil in El; subst ps.
  1-2: repeat split;
       [ apply marks_no_writes; rewrite store_writes_app, Fw; reflexivity
       | intros x Hx; left; unfold store_ids in *; cbn in Hx |- *;
         rewrite <- Fp; exact Hx
       | intros v _ p [] ].
  all: try (pose proof (process_each_facts channel ps 0
              (final (run (fetchProposals realmId programId) w))) as K;
            cbv zeta in K; rewrite Fi in K;
            destruct K as [K0 [K1 [K2 [K3 K4]]]]).
  5: { repeat split.
       - apply marks_no_writes. exact Fw.
       - intros x Hx. left. rewrite <- Fi. exact Hx.
       - discriminate. }
  4: rewrite <- (app_nil_r (events (run (process_each channel ps 0) _))).
  all: repeat split;
    [ apply marks_cycle; auto
    | intros x Hx; change (store_ids (set_send_faults ?r ?w')) with (store_ids w') in Hx;
      destruct (K2 x Hx) as [H|H]; [left; exact H | right; apply notified_cycle; exact H]
    | intros v Hv; try discriminate Hv;
      change (store_ids (set_send_faults ?r ?w')) with (store_ids w');
      apply (K3 n Ek) ].
Qed.


(** [processProposals] throws only what the send of its error report
    throws. *)
Lemma processProposals_throws (w : World) (e : Err) :
  outcome (run (processProposals channel realmId programId) w) = Thrown e ->
  In (EvSend (channel_id channel) (Text error_text) (Some e))
     (events (run (processProposals channel realmId programId) w)).
Proof.
  rewrite run_processProposals. cbv zeta.
  destruct (outcome (run (process_try channel realmId programId) w));
    [discriminate|].
  destruct (next_fault (send_faults _)) as [[e'|] rest];
    cbn [events final outcome outcome_of_fault]; [|discriminate].
  intros H. injection H as <-. right. apply in_or_app. right. right. left.
  reflexivity.
Qed.






End Cycle.

(** *** The store across a cycle *)

Lemma processProposals_NoDup (channel : Channel) (realmId programId : string)
  (w : World) :
  NoDup (store_ids w) ->
  NoDup (store_ids (final (run (processProposals channel realmId programId) w))).
Proof.
  intros Hnd. rewrite run_processProposals. cbv zeta.
  assert (Ht : NoDup (store_ids (final (run (process_try channel realmId
                                               programId) w)))).
  { destruct (fetchProposals_quiet realmId programId w) as [_ [_ [_ [Fp _]]]].
    assert (Hf : NoDup (store_ids (final (run (fetchProposals realmId programId) w))))
      by (unfold store_ids in *; rewrite Fp; exact Hnd).
    pose proof (fun ps => @process_each_NoDup channel ps 0 _ Hf) as Hk.
    rewrite run_process_try. cbv zeta.
    destruct (outcome (run (fetchProposals realmId programId) w)) as [ps|e];
      [|exact Hf].
    specialize (Hk ps).
    destruct (length ps =? 0)%nat.
    - destruct (next_fault (send_faults _)) as [fault rest]. exact Hf.
    - destruct (outcome (run (process_each channel ps 0) _)) as [n|e];
        [|exact Hk].
      destruct (0 <? n)%nat; [|exact Hk].
      destruct (next_fault (send_faults _)) as [fault rest]. exact Hk. }
  destruct (outcome (run (process_try channel realmId programId) w)) as [v|e];
    [exact Ht|].
  destruct (next_fault (send_faults _)) as [fault rest]. exact Ht.
Qed.

(** C10.  [saveProposal] of an id that is in the store writes nothing and
    leaves the world as it was; and whatever the id and the faults, a store
    without duplicates stays without duplicates, through [saveProposal]
    and through a whole cycle. *)
Theorem saveProposal_idempotent :
  (forall (w : World) (ids : list string) (proposalId : string),
      proposal_store w = Some ids -> In proposalId ids ->
      let r := run (saveProposal proposalId) w in
      store_writes (events r) = [] /\ final r = w /\ outcome r = Returned tt)
  /\
  (forall (w : World) (proposalId : string),
      NoDup (store_ids w) ->
      NoDup (store_ids (final (run (saveProposal proposalId) w))))
  /\
  (forall (channel : Channel) (realmId programId : string) (w : World),
      NoDup (store_ids w) ->
      NoDup (store_ids
               (final (run (processProposals channel realmId programId) w)))).
Proof.
  split; [|split; [|exact processProposals_NoDup]].
  - intros w ids proposalId Hs Hin. apply includes_In in Hin.
    destruct w; simpl in *; subst. unfold saveProposal. cbn.
    rewrite Hin. cbn. auto.
  - intros w proposalId Hnd. unfold store_ids in *.
    destruct w as [store c ga pp vk cl rf sf wf mt pt nh]; simpl in *.
    unfold saveProposal. destruct store as [ids|]; cbn.
    + destruct (includes ids proposalId) eqn:E; cbn; [exact Hnd|].
      apply includes_not_In in E.
      destruct wf as [|[e|] wf]; cbn; try exact Hnd.
      all: apply NoDup_app; [exact Hnd | repeat constructor; intros []|].
      all: intros a Ha [<-|[]]; contradiction.
    + change (includes [] proposalId) with false.
      destruct wf as [|[e|] [|[e'|] wf]]; cbn; repeat constructor; intros [].
Qed.

Lemma saveProposal_idempotent_example :
  final (run (saveProposal "P1") seen_world) = seen_world /\
  NoDup (store_ids (final (run (saveProposal "P2") seen_world))).
Proof.
  destruct saveProposal_idempotent as [Hknown [Hnodup _]]. split.
  - apply (Hknown seen_world ["P1"] "P1" eq_refl). left. reflexivity.
  - apply Hnodup. repeat constructor. intros [].
Defined.

(** *** Small cycles *)




(** A mark that fails: P1 is delivered, the write of its id fails, and the
    next cycle delivers P1 again. *)
Example renotified_after_failed_mark :
  let first := run (processProposals example_channel "realm-1" "program-1")
                   failing_write_world in
  let second := run (processProposals example_channel "realm-1" "program-1")
                    (final first) in
  notified_titles (events first) = ["P1"] /\
  delivered (events first) <> [] /\
  caught (events first) = true /\
  proposal_store (final first) = Some [] /\
  notified_titles (events second) = ["P1"; "P2"] /\
  proposal_store (final second) = Some ["P1"; "P2"].
Proof. cbv zeta. repeat split. discriminate. Qed.

(** Running the pipeline twice on the same records announces nothing the
    second time. *)
Example second_run_is_silent :
  let first := run (processProposals example_channel "realm-1" "program-1")
                   example_world in
  let second := run (processProposals example_channel "realm-1" "program-1")
                    (final first) in
  notified_titles (events first) = ["P1"; "P2"] /\
  sends (events second) = [].
Proof. cbv zeta. split; reflexivity. Qed.


(** *** The scheduler *)

(** [startMonitoring] on a complete configuration whose channel is found
    and text-based. *)
Lemma run_startMonitoring (config : Config) (channel : Channel) (w : World) :
  incomplete config = false ->
  channel_lookup w (str (notificationChannelId config))
    = Returned (Some channel) ->
  isTextBased channel = true ->
  run (startMonitoring config) w =
  let w1 := match monitoringTimeout w with
            | Some handle =>
                set_timers (filter (fun t => negb (fst t =? handle)%nat)
                                   (pending_timers w))
                           (next_handle w) w
            | None => w
            end in
  let pre := EvChannelsFetch (str (notificationChannelId config))
               :: EvReadTimeout
               :: match monitoringTimeout w with
                  | Some handle => [EvClearTimeout handle]
                  | None => []
                  end ++ [EvConsole LogStartingMonitoring] in
  let r := run (processProposals channel (str (realmId config))
                                 (str (programId config))) w1 in
  match outcome r with
  | Returned _ =>
      let handle := next_handle (final r) in
      mkRun (pre ++ events r ++
               [EvSetTimeout handle AUTO_CHECK_INTERVAL config;
                EvAssignTimeout handle])
            (set_monitoringTimeout (Some handle)
               (set_timers (pending_timers (final r) ++ [(handle, config)])
                           (S handle) (final r)))
            (Returned tt)
  | Thrown e =>
      mkRun (pre ++ events r ++ [EvConsole (LogMonitoringError e)])
            (final r) (Returned tt)
  end.
Proof.
  intros Hc Hl Ht. unfold startMonitoring. rewrite Hc.
  unfold monitoring_try.
  cbn [bind try_catch call console run perform]. rewrite Hl.
  cbn [bind try_catch call console run perform]. rewrite Ht.
  cbn [negb bind try_catch call console run perform events final outcome].
  destruct (monitoringTimeout w) as [handle|];
    cbn [negb bind try_catch call console run perform events final outcome
         set_timers monitoringTimeout pending_timers next_handle].
  all: rewrite run_try_catch, run_bind; cbv zeta.
  all: match goal with
       | |- context [outcome (run (processProposals ?c ?r ?p) ?w1)] =>
           destruct (outcome (run (processProposals c r p) w1)) as [[]|e]
       end;
       cbn [bind try_catch call console run perform events final outcome app];
       list_norm; reflexivity.
Qed.




(** ** The commands *)

(** C2 (the code departs from it).  The handler has no branch for
    [!reset]: the message reads the configuration and nothing else.  The
    world is as it was, configuration and store included, and an id that
    was in the store is still not new. *)
Theorem reset_command_is_ignored (w : World) (channel : Channel) :
  let r := run (onMessageCreate (reset_message channel)) w in
  final r = w /\
  events r = [EvReadConfig (match config_file w with
                            | Some c => Returned c
                            | None => Thrown enoent
                            end)] /\
  outcome r = Returned tt /\
  forall proposalId, In proposalId (store_ids w) ->
    outcome (run (isNewProposal proposalId) (final r)) = Returned false.
Proof.
  cbv zeta.
  assert (E : run (onMessageCreate (reset_message channel)) w
              = mkRun [EvReadConfig (match config_file w with
                            | Some c => Returned c
                            | None => Thrown enoent
                            end)] w (Returned tt)).
  { unfold onMessageCreate, loadConfig. cbn.
    destruct (config_file w); reflexivity. }
  rewrite E. cbn [final events outcome]. repeat split.
  intros proposalId Hin. unfold store_ids in Hin.
  destruct w as [[ids|] c ga pp vk cl rf sf wf mt pt nh]; cbn in Hin; [|contradiction].
  apply includes_In in Hin. unfold isNewProposal. cbn. rewrite Hin. reflexivity.
Qed.

(** ** Overlapping cycles *)

Lemma take_task_fresh (n : nat) (p : Prog unit) (ts : list (nat * Prog unit)) :
  Forall (fun t => fst t < n) ts ->
  take_task n (ts ++ [(n, p)]) = Some (p, ts).
Proof.
  induction 1 as [|[t q] ts Ht _ IH]; simpl.
  - rewrite Nat.eqb_refl. reflexivity.
  - simpl in Ht. destruct (Nat.eqb_spec t n); [lia|]. rewrite IH. reflexivity.
Qed.

Lemma entered_cycle_app (t : nat) (h h' : list (nat * Event)) :
  entered_cycle t (h ++ h') = entered_cycle t h || entered_cycle t h'.
Proof. apply existsb_app. Qed.

Lemma advance_processProposals (channel : Channel) (realmId programId : string)
  (w : World) :
  exists evs rest,
    advance (processProposals channel realmId programId) w
    = (EvConsole LogProcessing :: evs, w, Some rest) /\ calls evs = [].
Proof.
  unfold processProposals, process_try, fetchProposals, fetchProposals_in.
  cbn [bind try_catch call console advance awaited perform].
  destruct (valid_key w programId);
    cbn [bind try_catch call console advance awaited perform fetch_loop
         fetch_attempt fetch_catch process_catch is_429];
    [destruct (valid_key w realmId);
     cbn [bind try_catch call console advance awaited perform fetch_loop
          fetch_attempt fetch_catch process_catch is_429] | ];
    eexists; eexists; split; reflexivity.
Qed.

(** Nothing in the [!fetch] branch looks at the cycles in flight: whenever
    a task is in one and the bot is configured, a [!fetch] message, resumed
    twice, puts a second task in a cycle beside it. *)
Theorem fetch_command_has_no_guard (l : Loop) (config : Config)
  (channel from : Channel) (t : nat) :
  well_numbered l ->
  In t (in_flight l) ->
  config_file (world l) = Some config ->
  incomplete config = false ->
  channel_lookup (world l) (str (notificationChannelId config))
    = Returned (Some channel) ->
  exists l',
    run_loop [MessageCreate (fetch_from from); Resume (next_task l);
              Resume (next_task l)] l = Some l' /\
    t <> next_task l /\
    In t (in_flight l') /\ In (next_task l) (in_flight l').
Proof.
  destruct l as [w ts n h]. unfold well_numbered, in_flight.
  cbn [world tasks next_task history]. intros Hwn Ht Hcfg Hinc Hch.
  apply filter_In in Ht. destruct Ht as [Hin Hent].
  cbn [run_loop step]. unfold dispatch, start_task.
  cbn [onMessageCreate fetch_from author_bot loadConfig bind try_catch call
       advance awaited world tasks next_task history].
  cbn [start_calls calls fold_left map suspended].
  unfold resume at 1. cbn [tasks world next_task history].
  rewrite (take_task_fresh _ Hwn).
  cbn [perform]. rewrite Hcfg.
  cbn -[incomplete processProposals]. rewrite Hinc.
  cbn -[incomplete processProposals].
  unfold resume. cbn [tasks world next_task history].
  rewrite (take_task_fresh _ Hwn).
  cbn [perform]. rewrite Hch.
  cbn -[incomplete processProposals].
  destruct (advance_processProposals channel (str (realmId config))
              (str (programId config)) w) as [evs [rest [E Hc]]].
  rewrite E. unfold start_calls. cbn [calls]. rewrite Hc. cbn [fold_left].
  eexists. split; [reflexivity|]. cbn [tasks history suspended].
  assert (Hne : t <> n).
  { intros ->. apply in_map_iff in Hin. destruct Hin as [[t' q] [Heq Hq]].
    rewrite Forall_forall in Hwn. apply Hwn in Hq. simpl in *. lia. }
  split; [exact Hne|]. rewrite !filter_In, !map_app, !in_app_iff.
  rewrite !entered_cycle_app. rewrite Hent. cbn. rewrite Nat.eqb_refl.
  rewrite !orb_true_r. auto.
Qed.

Example fetch_command_has_no_guard_example :
  exists l',
    run_loop [MessageCreate (fetch_from example_channel); Resume 2; Resume 2]
             running_loop = Some l' /\
    1 <> 2 /\ In 1 (in_flight l') /\ In 2 (in_flight l').
Proof.
  apply (@fetch_command_has_no_guard running_loop example_config
           example_channel example_channel 1).
  - repeat constructor.
  - left. reflexivity.
  - reflexivity.
  - reflexivity.
  - reflexivity.
Qed.

(** C4 (the code departs from it).  The bot starts and its first cycle is
    awaiting the RPC node when [!fetch] arrives: tasks 1 and 2 are then in
    a cycle at once, and when both have run to their end, turn about, each
    has announced P1 and P2. *)
Theorem manual_trigger_starts_second_cycle :
  option_map in_flight (run_loop overlapping_schedule (boot example_world))
    = Some [1; 2] /\
  option_map (fun l => notifications (history l))
    (run_loop (overlapping_schedule ++ alternate 15 1 2) (boot example_world))
    = Some [(1, "P1"); (2, "P1"); (1, "P2"); (2, "P2")].
Proof. split; vm_compute; reflexivity. Qed.

(** * The rest of [bot.js] *)

(** ** What a cycle touches *)

Lemma only_bind allowed (A B : Type) (p : Prog A) (f : A -> Prog B) :
  only allowed p -> (forall a, only allowed (f a)) -> only allowed (bind p f).
Proof.
  intros Hp Hf. induction Hp as [a | e | X eff k Ha _ IH]; simpl.
  - apply Hf.
  - constructor.
  - constructor; assumption.
Qed.

Lemma only_try_catch allowed (A : Type) (p : Prog A) (h : Err -> Prog A) :
  only allowed p -> (forall e, only allowed (h e)) ->
  only allowed (try_catch p h).
Proof.
  intros Hp Hh. induction Hp as [a | e | X eff k Ha _ IH]; simpl.
  - constructor.
  - apply Hh.
  - constructor; assumption.
Qed.

Lemma only_call allowed (X : Type) (eff : Effect X) :
  allowed X eff = true -> only allowed (call eff).
Proof.
  intros H. constructor; [exact H|]. intros [x|e]; constructor.
Qed.

Lemma only_lift allowed (A : Type) (o : Outcome A) : only allowed (lift o).
Proof. destruct o; constructor. Qed.

Ltac footprint :=
  repeat first
    [ apply only_bind; [|intros ?]
    | apply only_try_catch; [|intros ?]
    | apply only_call; reflexivity
    | apply only_lift
    | apply only_ret
    | apply only_throw
    | match goal with
      | |- only _ (if ?b then _ else _) => destruct b
      | |- only _ (match ?x with _ => _ end) => destruct x
      end ].

Lemma only_initializeProposalStore :
  only (@pipeline_effect) initializeProposalStore.
Proof. unfold initializeProposalStore, console. footprint. Qed.

Lemma only_isNewProposal (proposalId : string) :
  only (@pipeline_effect) (isNewProposal proposalId).
Proof.
  unfold isNewProposal. footprint.
Qed.

Lemma only_saveProposal (proposalId : string) :
  only (@pipeline_effect) (saveProposal proposalId).
Proof.
  unfold saveProposal, console. footprint.
Qed.

Lemma only_fetch_loop (realmId programId : string) (retries : nat) :
  forall delayTime,
  only (@pipeline_effect)
       (fetch_loop delay_in_bot_js realmId programId retries delayTime).
Proof.
  induction retries as [|n IH]; intros d; cbn [fetch_loop].
  - unfold console. footprint.
  - apply only_bind.
    + unfold fetch_attempt, fetch_catch, call_delay, delay_in_bot_js, console.
      footprint.
    + intros [l|]; [constructor | apply IH].
Qed.

Lemma only_fetchProposals (realmId programId : string) :
  only (@pipeline_effect) (fetchProposals realmId programId).
Proof.
  unfold fetchProposals, fetchProposals_in.
  apply only_bind; [apply only_call; reflexivity|].
  intros _. apply only_fetch_loop.
Qed.

Lemma only_process_each (channel : Channel) (ps : list Proposal.t) :
  forall count, only (@pipeline_effect) (process_each channel ps count).
Proof.
  induction ps as [|p ps IH]; intros count; cbn [process_each].
  - constructor.
  - apply only_bind; [apply only_isNewProposal|]. intros [|]; [|apply IH].
    unfold console, sendDiscordNotification.
    apply only_bind; [apply only_call; reflexivity|]. intros _.
    apply only_bind; [apply only_call; reflexivity|]. intros _.
    apply only_bind; [apply only_saveProposal|]. intros _. apply IH.
Qed.

Lemma only_processProposals (channel : Channel) (realmId programId : string) :
  only (@pipeline_effect) (processProposals channel realmId programId).
Proof.
  unfold processProposals, console.
  apply only_bind; [apply only_call; reflexivity|]. intros _.
  apply only_try_catch.
  - unfold process_try. apply only_bind; [apply only_fetchProposals|].
    intros ps. apply only_bind; [apply only_call; reflexivity|]. intros _.
    destruct (length ps =? 0)%nat.
    + unfold console. footprint.
    + apply only_bind; [apply only_process_each|]. intros n.
      unfold console. footprint.
  - intros e. unfold process_catch, console. footprint.
Qed.

Lemma only_weaken (allowed allowed' : forall X : Type, Effect X -> bool)
  (A : Type) (p : Prog A) :
  (forall X (eff : Effect X), allowed X eff = true -> allowed' X eff = true) ->
  only allowed p -> only allowed' p.
Proof.
  intros Hw Hp. induction Hp; constructor; auto.
Qed.

(** A program written with the operations of the [!fetch] branch leaves
    the timers and the configuration alone. *)
Lemma only_same_schedule (A : Type) (p : Prog A) :
  only (@fetch_effect) p ->
  forall w, same_schedule w (final (run p w)).
Proof.
  induction 1 as [a | e | X eff k Ha _ IH]; intros w; simpl.
  - repeat split.
  - repeat split.
  - assert (F : same_schedule w (snd (fst (perform eff w)))).
    { destruct eff; try discriminate Ha; cbn; unfold same_schedule.
      all: try (destruct (proposal_store w); cbn; auto; fail).
      all: try (destruct (next_fault _) as [[e|] rest]; cbn; auto; fail).
      all: cbn; auto. }
    destruct (perform eff w) as [[ev w1] r]. simpl in *.
    destruct (IH r w1) as [I1 [I2 [I3 I4]]]. destruct F as [F1 [F2 [F3 F4]]].
    unfold same_schedule. rewrite I1, I2, I3, I4. auto.
Qed.

(** A program written with the operations of the pipeline leaves only
    their events. *)
Lemma only_pipeline_events (A : Type) (p : Prog A) :
  only (@pipeline_effect) p ->
  forall w, Forall (fun ev => pipeline_event ev = true) (events (run p w)).
Proof.
  induction 1 as [a | e | X eff k Ha _ IH]; intros w; simpl.
  - constructor.
  - constructor.
  - assert (F : pipeline_event (fst (fst (perform eff w))) = true).
    { destruct eff; try discriminate Ha; cbn; try reflexivity.
      all: try (destruct (proposal_store w); reflexivity).
      all: try (destruct (next_fault _) as [[e|] rest]; reflexivity). }
    destruct (perform eff w) as [[ev w1] r]. simpl in *.
    constructor; [exact F | apply IH].
Qed.

(** X1.  A cycle only touches the proposal store, the RPC node, the
    channel and the console: every event of [processProposals] is one of
    those, and it leaves [monitoringTimeout], the pending timeouts, the
    next handle and [config.json] as they were. *)
Theorem processProposals_footprint (channel : Channel)
  (realmId programId : string) (w : World) :
  let r := run (processProposals channel realmId programId) w in
  Forall (fun ev => pipeline_event ev = true) (events r) /\
  same_schedule w (final r).
Proof.
  cbv zeta. split.
  - apply only_pipeline_events, only_processProposals.
  - apply only_same_schedule.
    apply only_weaken with (allowed := @pipeline_effect);
      [|apply only_processProposals].
    intros X eff H. unfold fetch_effect. rewrite H. reflexivity.
Qed.

(** X2.  Whatever a [!fetch] message runs into, its handler leaves the
    scheduled check alone: [monitoringTimeout], the pending timeouts and
    [config.json] are the same afterwards, so a manual check neither
    cancels nor postpones the automatic one. *)
Theorem fetch_command_keeps_schedule (from : Channel) (w : World) :
  same_schedule w (final (run (onMessageCreate (fetch_from from)) w)).
Proof.
  apply only_same_schedule.
  unfold onMessageCreate, loadConfig. cbn -[processProposals incomplete].
  constructor; [reflexivity|]. intros r.
  assert (H : forall config,
    only (@fetch_effect)
      (if incomplete config
       then call (MessageReply (fetch_from from) (Text not_configured_text))
       else
         channel <- try_catch
                      (call (ChannelsFetch (str (notificationChannelId config))))
                      (fun _ => Ret None) ;;
         match channel with
         | Some channel =>
             processProposals channel (str (realmId config))
                              (str (programId config))
         | None =>
             call (MessageReply (fetch_from from) (Text invalid_channel_text))
         end)).
  { intros config. destruct (incomplete config).
    - apply only_call. reflexivity.
    - apply only_bind.
      + apply only_try_catch; [apply only_call; reflexivity|].
        intros _. constructor.
      + intros [channel|]; [|apply only_call; reflexivity].
        apply only_weaken with (allowed := @pipeline_effect);
          [|apply only_processProposals].
        intros X eff E. unfold fetch_effect. rewrite E. reflexivity. }
  destruct r as [config|e]; cbn -[processProposals incomplete]; apply H.
Qed.

(** ** The two files *)


(** X4.  [initializeProposalStore] never changes the ids: on an
    existing store it does nothing at all; on a missing one it makes one
    write, of the empty list; and when it returns, the store exists. *)
Theorem initializeProposalStore_keeps_ids (w : World) :
  let r := run initializeProposalStore w in
  store_ids (final r) = store_ids w /\
  (proposal_store w <> None -> final r = w /\ store_writes (events r) = []) /\
  (outcome r = Returned tt -> proposal_store (final r) <> None) /\
  (proposal_store w = None ->
   store_writes (events r) = [([], fst (next_fault (write_faults w)))]).
Proof.
  destruct w as [store c ga pp vk cl rf sf wf mt pt nh].
  unfold initializeProposalStore, store_ids. destruct store as [ids|]; cbn.
  - repeat split; intros; try discriminate; congruence.
  - destruct wf as [|[e|] wf]; cbn; repeat split; intros;
      try discriminate; congruence.
Qed.




(** ** Whole cycles *)

Ltac cycle_cases realmId programId channel w :=
  rewrite run_processProposals; cbv zeta;
  rewrite run_process_try; cbv zeta;
  destruct (outcome (run (fetchProposals realmId programId) w))
    as [ps|e] eqn:Ef;
  [ destruct (length ps =? 0)%nat eqn:El;
    [ destruct (next_fault (send_faults
                  (final (run (fetchProposals realmId programId) w))))
        as [[e|] rest]
    | destruct (outcome (run (process_each channel ps 0)
                  (final (run (fetchProposals realmId programId) w))))
        as [n|e] eqn:Ek;
      [ destruct (0 <? n)%nat eqn:En;
        [ destruct (next_fault (send_faults
                      (final (run (process_each channel ps 0)
                         (final (run (fetchProposals realmId programId) w))))))
            as [[e|] rest]
        | ]
      | ] ]
  | ]; cbn [events final outcome outcome_of_fault];
  try match goal with
      | |- context [next_fault ?s] =>
          destruct (next_fault s) as [fault' rest']
      end; cbn [events final outcome outcome_of_fault].


(** A record whose id is in the store costs one look at the store and
    nothing else. *)
Lemma process_one_known (channel : Channel) (p : Proposal.t) (w : World) :
  In (Proposal.id p) (store_ids w) ->
  let r := run (process_one channel p) w in
  final r = w /\ outcome r = Returned false /\
  sends (events r) = [] /\ store_writes (events r) = [].
Proof.
  destruct w as [store c ga pp vk cl rf sf wf mt pt nh].
  unfold store_ids, process_one, isNewProposal, initializeProposalStore.
  destruct store as [ids|]; cbn; [|intros []].
  intros Hin. apply includes_In in Hin. rewrite Hin. cbn. auto.
Qed.

Lemma process_each_known (channel : Channel) (ps : list Proposal.t) :
  forall (count : nat) (w : World),
  Forall (fun p => In (Proposal.id p) (store_ids w)) ps ->
  let r := run (process_each channel ps count) w in
  final r = w /\ outcome r = Returned count /\
  sends (events r) = [] /\ store_writes (events r) = [].
Proof.
  induction ps as [|p ps IH]; intros count w Hall; cbv zeta.
  - cbn. auto.
  - rewrite run_process_each_cons. cbv zeta.
    inversion Hall as [|p' ps' Hp Hps]; subst.
    destruct (@process_one_known channel p w Hp) as [Hf [Ho [Hs Hw]]].
    rewrite Ho, Hf. cbn [events final outcome].
    destruct (IH count w Hps) as [If' [Io [Is Iw]]].
    rewrite sends_app, Hs, Is.
    unfold store_writes in *. rewrite flat_map_app, Hw, Iw. auto.
Qed.

Lemma cycle_of_known_records (channel : Channel)
  (realmId programId : string) (w : World) (ps : list Proposal.t) :
  outcome (run (fetchProposals realmId programId) w) = Returned ps ->
  ps <> [] ->
  Forall (fun p => In (Proposal.id p) (store_ids w)) ps ->
  let r := run (processProposals channel realmId programId) w in
  sends (events r) = [] /\
  store_writes (events r) = [] /\
  caught (events r) = false /\
  outcome r = Returned tt /\
  final r = final (run (fetchProposals realmId programId) w).
Proof.
  intros Hf Hne Hall. cbv zeta.
  destruct (fetchProposals_quiet realmId programId w)
    as [Fw [Fs [Fc [Fp _]]]].
  assert (Hall' : Forall (fun p => In (Proposal.id p)
             (store_ids (final (run (fetchProposals realmId programId) w))))
             ps).
  { unfold store_ids. rewrite Fp. exact Hall. }
  destruct (@process_each_known channel ps 0 _ Hall') as [Kf [Ko [Ks Kw]]].
  rewrite run_processProposals. cbv zeta.
  rewrite run_process_try. cbv zeta. rewrite Hf.
  destruct ps as [|p ps]; [contradiction Hne; reflexivity|].
  cbn [length Nat.eqb]. rewrite Ko. cbn [Nat.ltb Nat.leb].
  cbn [events final outcome].
  change (EvConsole LogProcessing :: ?a ++ ?b)
    with ([EvConsole LogProcessing] ++ a ++ b).
  change (EvConsole (LogFetched ?n) :: ?a ++ ?b)
    with ([EvConsole (LogFetched n)] ++ a ++ b).
  rewrite !sends_app, !store_writes_app, !caught_app, Fs, Fw, Fc, Ks, Kw, Kf.
  rewrite process_each_not_caught. cbn. auto.
Qed.

(** X8.  When every fetched record is already in the store, and there
    is at least one, the cycle sends nothing to the channel (not even a
    summary), writes nothing, catches nothing, and leaves the store as it
    was: the only trace of it is in the console. *)
Theorem known_records_are_silent (channel : Channel)
  (realmId programId : string) (w : World) :
  fetched_by realmId programId w <> [] ->
  Forall (fun p => In (Proposal.id p) (store_ids w))
         (fetched_by realmId programId w) ->
  let r := run (processProposals channel realmId programId) w in
  sends (events r) = [] /\
  store_writes (events r) = [] /\
  caught (events r) = false /\
  outcome r = Returned tt /\
  proposal_store (final r) = proposal_store w.
Proof.
  unfold fetched_by. intros Hne Hall.
  destruct (outcome (run (fetchProposals realmId programId) w))
    as [ps|e] eqn:Ef; [|contradiction Hne; reflexivity].
  destruct (@cycle_of_known_records channel realmId programId w ps Ef Hne Hall)
    as [K1 [K2 [K3 [K4 K5]]]].
  cbv zeta. rewrite K5.
  destruct (fetchProposals_quiet realmId programId w) as [_ [_ [_ [Fp _]]]].
  auto.
Qed.

Lemma known_records_are_silent_example :
  length (fetched_by "realm-1" "program-1" all_seen_world) = 2 /\
  sends (events (run (processProposals example_channel "realm-1" "program-1")
                     all_seen_world)) = [].
Proof.
  split; [reflexivity|].
  apply (@known_records_are_silent example_channel "realm-1" "program-1"
           all_seen_world).
  - discriminate.
  - vm_compute. constructor; [left; reflexivity|].
    constructor; [right; left; reflexivity|]. constructor.
Defined.

(** ** The fetcher and the RPC node *)



(** X10.  With valid keys, [fetchProposals] asks the RPC node for the
    governance accounts of the realm, and for the proposals of the program
    only when that first call succeeded: at most two RPC calls, in that
    order, in one attempt and with no wait.  When it returns, both calls
    succeeded and the result is the conversion of the proposals kept. *)
Theorem fetchProposals_rpc_calls (realmId programId : string) (w : World) :
  valid_key w realmId = true ->
  valid_key w programId = true ->
  let f := run (fetchProposals realmId programId) w in
  rpc_events (events f) =
    match next_fault (rpc_faults w) with
    | (Some e, _) => [EvGetGovernanceAccounts programId realmId (Some e)]
    | (None, rest) =>
        [EvGetGovernanceAccounts programId realmId None;
         EvGetAllProposals programId (fst (next_fault rest))]
    end /\
  sleeps (events f) = [] /\
  attempts (events f) = 1 /\
  (forall ps, outcome f = Returned ps ->
     map_outcome to_record (kept w realmId programId) = Returned ps /\
     rpc_faults (final f) = snd (next_fault (snd (next_fault (rpc_faults w))))).
Proof.
  intros Hr Hp. cbv zeta.
  rewrite run_fetchProposals by exact Hp. cbv zeta.
  unfold fetch_attempt, kept.
  destruct w as [store c ga pp vk cl rf sf wf mt pt nh].
  cbn in Hr, Hp. cbn. rewrite Hr. cbn.
  destruct rf as [|[e|] rf]; cbn; rewrite ?Hp; cbn.
  - destruct (map_outcome to_record _) as [l|e] eqn:Em; cbn;
      [|destruct (is_429 e); cbn];
      repeat split; intros; try discriminate; congruence.
  - destruct (is_429 e); cbn; repeat split; intros; discriminate.
  - destruct rf as [|[e|] rf]; cbn;
      try (destruct (map_outcome to_record _) as [l|e'] eqn:Em; cbn);
      repeat match goal with
             | |- context [is_429 ?x] => destruct (is_429 x); cbn
             end;
      repeat split; intros; try discriminate; congruence.
Qed.

Lemma fetchProposals_rpc_calls_example :
  rpc_events (events (run (fetchProposals "realm-1" "program-1")
                          failing_rpc_world))
  = [EvGetGovernanceAccounts "program-1" "realm-1" (Some (HttpError 500))] /\
  rpc_events (events (run (fetchProposals "realm-1" "program-1")
                          example_world))
  = [EvGetGovernanceAccounts "program-1" "realm-1" None;
     EvGetAllProposals "program-1" None].
Proof.
  split.
  - exact (proj1 (@fetchProposals_rpc_calls "realm-1" "program-1"
                    failing_rpc_world eq_refl eq_refl)).
  - exact (proj1 (@fetchProposals_rpc_calls "realm-1" "program-1"
                    example_world eq_refl eq_refl)).
Defined.

(** No operation changes what the chain holds or which keys are valid,
    and a script of RPC faults that has run out stays so. *)
Lemma perform_keeps_chain {X : Type} (eff : Effect X) (w : World) :
  let w' := snd (fst (perform eff w)) in
  governance_accounts w' = governance_accounts w /\
  program_proposals w' = program_proposals w /\
  valid_key w' = valid_key w /\
  channel_lookup w' = channel_lookup w /\
  (rpc_faults w = [] -> rpc_faults w' = []).
Proof.
  destruct w as [store c ga pp vk cl rf sf wf mt pt nh].
  destruct eff; cbn;
    repeat match goal with
           | |- context [next_fault ?s] => destruct s as [|[?|] ?]; cbn
           | |- context [match ?x with _ => _ end] => destruct x; cbn
           end;
    repeat split; auto; discriminate.
Qed.

Lemma run_keeps_chain {A : Type} (p : Prog A) :
  forall w : World,
  let w' := final (run p w) in
  governance_accounts w' = governance_accounts w /\
  program_proposals w' = program_proposals w /\
  valid_key w' = valid_key w /\
  channel_lookup w' = channel_lookup w /\
  (rpc_faults w = [] -> rpc_faults w' = []).
Proof.
  induction p as [a | e | X eff k IH]; intros w; cbv zeta.
  - cbn. auto.
  - cbn. auto.
  - cbn [run]. pose proof (perform_keeps_chain eff w) as P. cbv zeta in P.
    destruct (perform eff w) as [[ev w1] r]. cbn [fst snd] in P.
    cbn [final]. specialize (IH r w1). cbv zeta in IH.
    destruct P as [P1 [P2 [P3 [P4 P5]]]].
    destruct IH as [I1 [I2 [I3 [I4 I5]]]].
    repeat split; try congruence. auto.
Qed.

(** With no RPC fault left, what [fetchProposals] returns is a function of
    the chain and of the valid keys, and it leaves the world as it was. *)
Lemma fetchProposals_of_chain (realmId programId : string) (w w' : World) :
  governance_accounts w' = governance_accounts w ->
  program_proposals w' = program_proposals w ->
  valid_key w' = valid_key w ->
  rpc_faults w = [] -> rpc_faults w' = [] ->
  outcome (run (fetchProposals realmId programId) w')
  = outcome (run (fetchProposals realmId programId) w) /\
  final (run (fetchProposals realmId programId) w') = w'.
Proof.
  destruct w as [store c ga pp vk cl rf sf wf mt pt nh].
  destruct w' as [store' c' ga' pp' vk' cl' rf' sf' wf' mt' pt' nh'].
  cbn [governance_accounts program_proposals valid_key rpc_faults].
  intros -> -> -> -> ->.
  unfold fetchProposals, fetchProposals_in. rewrite !run_bind.
  cbn [run call perform valid_key outcome]. 
  destruct (vk programId) eqn:Hp; cbn [outcome final events]; [|auto].
  cbv zeta. rewrite !run_fetch_loop_S. cbv zeta.
  unfold fetch_attempt. cbn. destruct (vk realmId) eqn:Hr; cbn; [|auto].
  rewrite ?Hp. cbn.
  destruct (map_outcome to_record _) as [l|e]; cbn; [auto|].
  destruct (is_429 e); cbn; auto.
Qed.

(** A cycle that caught nothing ended in the [try] block. *)
Lemma uncaught_cycle (channel : Channel) (realmId programId : string)
  (w : World) :
  caught (events (run (processProposals channel realmId programId) w)) = false ->
  exists v,
    outcome (run (process_try channel realmId programId) w) = Returned v /\
    final (run (processProposals channel realmId programId) w)
    = final (run (process_try channel realmId programId) w).
Proof.
  rewrite run_processProposals. cbv zeta.
  destruct (outcome (run (process_try channel realmId programId) w))
    as [v|e] eqn:Et.
  - intros _. exists v. auto.
  - destruct (next_fault _) as [fault rest]. cbn [events].
    change (EvConsole LogProcessing :: ?a ++ ?b)
      with ([EvConsole LogProcessing] ++ a ++ b).
    rewrite !caught_app. cbn. rewrite orb_true_r. discriminate.
Qed.

(** X11.  With an RPC node that does not fail, a cycle that fetched
    something and caught no error is followed by a silent one: run again
    in the world the first cycle left, [processProposals] sends nothing,
    writes nothing and leaves that world exactly as it found it. *)
Theorem second_cycle_is_silent (channel : Channel)
  (realmId programId : string) (w : World) :
  rpc_faults w = [] ->
  fetched_by realmId programId w <> [] ->
  let first := run (processProposals channel realmId programId) w in
  caught (events first) = false ->
  let second := run (processProposals channel realmId programId) (final first) in
  sends (events second) = [] /\
  store_writes (events second) = [] /\
  caught (events second) = false /\
  final second = final first.
Proof.
  intros Hrf Hne first Hc second. subst first second.
  destruct (uncaught_cycle channel realmId programId w Hc) as [v [Et Ef]].
  destruct (process_try_marks channel realmId programId w) as [_ [_ Hk]].
  cbv zeta in Hk. specialize (Hk v Et). rewrite <- Ef in Hk.
  destruct (run_keeps_chain (processProposals channel realmId programId) w)
    as [C1 [C2 [C3 [_ C5]]]].
  destruct (fetchProposals_of_chain realmId programId w _ C1 C2 C3 Hrf (C5 Hrf))
    as [Fo Ff].
  unfold fetched_by in Hne, Hk.
  destruct (outcome (run (fetchProposals realmId programId) w))
    as [ps|e] eqn:Eo; [|contradiction Hne; reflexivity].
  assert (Hall : Forall (fun p => In (Proposal.id p)
     (store_ids (final (run (processProposals channel realmId programId) w))))
     ps) by (apply Forall_forall; exact Hk).
  destruct (@cycle_of_known_records channel realmId programId _ ps Fo Hne Hall)
    as [K1 [K2 [K3 [_ K5]]]].
  rewrite K5, Ff. auto.
Qed.

Lemma second_cycle_is_silent_example :
  let first := run (processProposals example_channel "realm-1" "program-1")
                   example_world in
  let second := run (processProposals example_channel "realm-1" "program-1")
                    (final first) in
  length (sends (events first)) = 3 /\
  sends (events second) = [] /\
  store_writes (events second) = [] /\
  caught (events second) = false /\
  final second = final first.
Proof.
  split; [reflexivity|].
  apply (@second_cycle_is_silent example_channel "realm-1" "program-1"
           example_world); [reflexivity | discriminate | reflexivity].
Defined.

(** ** The order of the announcements *)

Lemma process_one_cases (channel : Channel) (p : Proposal.t) (w : World) :
  let r := run (process_one channel p) w in
  (In (Proposal.id p) (store_ids w) /\ sends (events r) = [] /\
   final r = w /\ outcome r = Returned false)
  \/
  (~ In (Proposal.id p) (store_ids w) /\
   ((sends (events r) = [] /\ exists e, outcome r = Thrown e)
    \/ (sends (events r) = [notification_of p] /\
        ((exists e, outcome r = Thrown e)
         \/ (outcome r = Returned true /\
             store_ids (final r) = store_ids w ++ [Proposal.id p]))))).
Proof.
  destruct w as [store c ga pp vk cl rf sf wf mt pt nh].
  unfold process_one, store_ids, isNewProposal, saveProposal,
    initializeProposalStore, sendDiscordNotification, notification_of.
  assert (Hnil : includes [] (Proposal.id p) = false) by reflexivity.
  destruct store as [ids|]; cbn.
  - destruct (includes ids (Proposal.id p)) eqn:Hinc; cbn.
    + left. apply includes_In in Hinc. auto.
    + right. apply includes_not_In in Hinc as Hn. split; [exact Hn|].
      right.
      destruct sf as [|[e|] sf]; cbn; rewrite ?Hinc; cbn;
        try (destruct wf as [|[e'|] wf]; cbn);
        (split; [reflexivity|]); eauto.
  - right. split; [tauto|].
    destruct wf as [|[e|] wf]; cbn; rewrite ?Hnil; cbn;
      try (destruct sf as [|[e'|] sf]; cbn; rewrite ?Hnil; cbn);
      try (destruct wf as [|[e''|] wf]; cbn);
      first [ left; split; [reflexivity|]; eauto; fail
            | right; (split; [reflexivity|]); eauto ].
Qed.

Lemma process_each_announces (channel : Channel) (ps : list Proposal.t) :
  forall (count : nat) (w : World),
  exists sub : list Proposal.t,
    subsequence sub ps /\
    sends (events (run (process_each channel ps count) w))
    = map notification_of sub /\
    Forall (fun p => ~ In (Proposal.id p) (store_ids w)) sub /\
    NoDup (map Proposal.id sub).
Proof.
  induction ps as [|p ps IH]; intros count w.
  - exists []. cbn. repeat split; constructor.
  - rewrite run_process_each_cons. cbv zeta.
    destruct (process_one_cases channel p w)
      as [[Hin [Hs [Hf Ho]]] | [Hn [[Hs [e Ho]] | [Hs [[e Ho] | [Ho Hst]]]]]];
      rewrite Ho; cbn [events final outcome].
    + rewrite Hf. destruct (IH count w) as [sub [S1 [S2 [S3 S4]]]].
      exists sub. rewrite sends_app, Hs, S2.
      repeat split; auto. apply sub_skip. exact S1.
    + exists []. rewrite Hs. repeat split; constructor.
    + exists [p]. rewrite Hs. repeat split.
      * apply sub_take, sub_nil.
      * constructor; [exact Hn | constructor].
      * cbn. constructor; [intros [] | constructor].
    + destruct (IH (S count) (final (run (process_one channel p) w)))
        as [sub [S1 [S2 [S3 S4]]]].
      exists (p :: sub). rewrite sends_app, Hs, S2.
      rewrite Hst in S3.
      repeat split.
      * apply sub_take. exact S1.
      * constructor; [exact Hn|].
        eapply Forall_impl; [|exact S3]. cbn. intros q Hq Hin.
        apply Hq. apply in_or_app. left. exact Hin.
      * cbn. constructor; [|exact S4].
        intros Hin. apply in_map_iff in Hin. destruct Hin as [q [Eq Hq]].
        rewrite Forall_forall in S3. apply (S3 q Hq).
        apply in_or_app. right. left. symmetry. exact Eq.
Qed.

Lemma sends_console (l : LogLine) (evs : list Event) :
  sends (EvConsole l :: evs) = sends evs.
Proof. reflexivity. Qed.

Lemma sends_send (c : string) (m : Message) (fault : option Err)
  (evs : list Event) :
  sends (EvSend c m fault :: evs) = m :: sends evs.
Proof. reflexivity. Qed.

Ltac sends_norm :=
  repeat (rewrite sends_app || rewrite sends_console || rewrite sends_send);
  change (sends []) with (@nil Message).

(** X12.  The notifications [processProposals] passes to the channel
    are those of a subsequence of the fetched records, in the order
    fetched; none of these records was in the store when the cycle began,
    and no two of them share an id: within a cycle an id is announced at
    most once. *)
Theorem announcements_follow_fetch_order (channel : Channel)
  (realmId programId : string) (w : World) :
  exists sub : list Proposal.t,
    subsequence sub (fetched_by realmId programId w) /\
    filter is_notification
      (sends (events (run (processProposals channel realmId programId) w)))
    = map notification_of sub /\
    Forall (fun p => ~ In (Proposal.id p) (store_ids w)) sub /\
    NoDup (map Proposal.id sub).
Proof.
  destruct (fetchProposals_quiet realmId programId w)
    as [_ [Fs [_ [Fp _]]]].
  assert (Fi : store_ids (final (run (fetchProposals realmId programId) w))
               = store_ids w) by (unfold store_ids; rewrite Fp; reflexivity).
  assert (Hn : forall sub : list Proposal.t,
             filter is_notification (map notification_of sub)
             = map notification_of sub).
  { induction sub as [|q sub IHs]; cbn; [reflexivity|]. rewrite IHs.
    reflexivity. }
  assert (Hempty : exists sub : list Proposal.t,
             subsequence sub (fetched_by realmId programId w) /\
             @nil Message = map notification_of sub /\
             Forall (fun p => ~ In (Proposal.id p) (store_ids w)) sub /\
             NoDup (map Proposal.id sub)).
  { exists []. repeat split; constructor. }
  unfold fetched_by in *.
  cycle_cases realmId programId channel w;
    sends_norm; rewrite ?Fs;
    try (destruct (process_each_announces channel ps 0
                     (final (run (fetchProposals realmId programId) w)))
           as [sub [S1 [S2 [S3 S4]]]];
         rewrite Fi in S3; rewrite S2);
    rewrite ?filter_app, ?Hn; cbn [app filter is_notification];
    rewrite ?app_nil_r;
    first [exact Hempty | exists sub; auto].
Qed.

(** ** The scheduler *)

Lemma processProposals_same_schedule (channel : Channel)
  (realmId programId : string) (w : World) :
  same_schedule w (final (run (processProposals channel realmId programId) w)).
Proof.
  apply only_same_schedule.
  apply only_weaken with (allowed := @pipeline_effect);
    [|apply only_processProposals].
  intros X eff H. unfold fetch_effect. rewrite H. reflexivity.
Qed.

(** X13.  [startMonitoring] never throws: it returns on an incomplete
    configuration, and whatever its [try] block throws is caught and only
    logged.  (It is called without [await], by the handlers and by the
    timer.) *)
Theorem startMonitoring_never_throws (config : Config) (w : World) :
  outcome (run (startMonitoring config) w) = Returned tt.
Proof.
  unfold startMonitoring. destruct (incomplete config); [reflexivity|].
  rewrite run_try_catch.
  destruct (outcome (run (monitoring_try config) w)) as [[]|e] eqn:E.
  - exact E.
  - reflexivity.
Qed.

Lemma startMonitoring_idle (config : Config) (w : World) :
  (incomplete config = false ->
   forall channel,
     channel_lookup w (str (notificationChannelId config))
       = Returned (Some channel) ->
     isTextBased channel = false) ->
  let r := run (startMonitoring config) w in
  final r = w /\
  cycle_started (events r) = false /\
  sends (events r) = [] /\
  timeouts_set (events r) = [] /\
  (incomplete config = true -> events r = [EvConsole LogConfigIncomplete]).
Proof.
  intros H. cbv zeta. unfold startMonitoring.
  destruct (incomplete config) eqn:Ei; [cbn; auto|].
  specialize (H eq_refl).
  rewrite run_try_catch. unfold monitoring_try. rewrite run_bind.
  cbn [call run perform outcome events final].
  destruct (channel_lookup w (str (notificationChannelId config)))
    as [[channel|]|e] eqn:El; cbn [outcome events final run console call perform].
  - rewrite (H channel eq_refl). cbn. repeat split; auto; discriminate.
  - cbn. repeat split; auto; discriminate.
  - cbn. repeat split; auto; discriminate.
Qed.

(** X14.  On an incomplete configuration, or when the channel lookup
    throws, finds nothing or finds a channel that is not text-based,
    [startMonitoring] changes nothing: no cycle, no message, no timeout set
    and none cancelled. *)
Theorem startMonitoring_refuses (config : Config) (w : World) :
  (incomplete config = true \/
   forall channel,
     channel_lookup w (str (notificationChannelId config))
       = Returned (Some channel) ->
     isTextBased channel = false) ->
  let r := run (startMonitoring config) w in
  final r = w /\
  cycle_started (events r) = false /\
  sends (events r) = [] /\
  timeouts_set (events r) = [].
Proof.
  intros H.
  destruct (@startMonitoring_idle config w) as [H1 [H2 [H3 [H4 _]]]]; [|auto].
  intros Hi. destruct H as [H|H]; [congruence | exact H].
Qed.

Lemma startMonitoring_refuses_example :
  final (run (startMonitoring example_config) voice_world) = voice_world /\
  cycle_started (events (run (startMonitoring example_config) voice_world))
  = false.
Proof.
  destruct (@startMonitoring_refuses example_config voice_world)
    as [H1 [H2 _]].
  - right. intros channel E. injection E as <-. reflexivity.
  - split; [exact H1 | exact H2].
Defined.

Lemma timeouts_set_app (a b : list Event) :
  timeouts_set (a ++ b) = timeouts_set a ++ timeouts_set b.
Proof. apply flat_map_app. Qed.

Lemma pipeline_sets_no_timeout (evs : list Event) :
  Forall (fun ev => pipeline_event ev = true) evs -> timeouts_set evs = [].
Proof.
  induction 1 as [|ev evs Hev _ IH]; [reflexivity|].
  destruct ev; try discriminate Hev; exact IH.
Qed.

(** What an uninterrupted [startMonitoring] that finds its channel leaves
    of the timers. *)
Lemma startMonitoring_timers (config : Config) (channel : Channel) (w : World) :
  incomplete config = false ->
  channel_lookup w (str (notificationChannelId config))
    = Returned (Some channel) ->
  isTextBased channel = true ->
  let r := run (startMonitoring config) w in
  (timeouts_set (events r) = [(next_handle w, AUTO_CHECK_INTERVAL, config)] /\
   pending_timers (final r) = cleared w ++ [(next_handle w, config)] /\
   monitoringTimeout (final r) = Some (next_handle w) /\
   next_handle (final r) = S (next_handle w))
  \/
  (timeouts_set (events r) = [] /\
   pending_timers (final r) = cleared w /\
   monitoringTimeout (final r) = monitoringTimeout w /\
   next_handle (final r) = next_handle w /\
   exists e, In (EvSend (channel_id channel) (Text error_text) (Some e))
                (events r)).
Proof.
  intros Hi Hl Ht. cbv zeta.
  rewrite (@run_startMonitoring config channel w Hi Hl Ht). cbv zeta.
  set (w1 := match monitoringTimeout w with
             | Some handle => _
             | None => w
             end).
  assert (Hw1 : pending_timers w1 = cleared w /\
                monitoringTimeout w1 = monitoringTimeout w /\
                next_handle w1 = next_handle w).
  { unfold w1, cleared. destruct (monitoringTimeout w) eqn:Em; cbn; auto. }
  destruct Hw1 as [W1 [W2 W3]].
  destruct (processProposals_same_schedule channel (str (realmId config))
              (str (programId config)) w1) as [S1 [S2 [S3 _]]].
  assert (Hp : timeouts_set (events (run (processProposals channel
                 (str (realmId config)) (str (programId config))) w1)) = []).
  { apply pipeline_sets_no_timeout, only_pipeline_events,
      only_processProposals. }
  assert (Hpre : timeouts_set
            (EvChannelsFetch (str (notificationChannelId config))
             :: EvReadTimeout
             :: match monitoringTimeout w with
                | Some handle => [EvClearTimeout handle]
                | None => []
                end ++ [EvConsole LogStartingMonitoring]) = []).
  { destruct (monitoringTimeout w); reflexivity. }
  destruct (outcome (run (processProposals channel (str (realmId config))
                           (str (programId config))) w1)) as [[]|e] eqn:Eo;
    cbn [events final outcome].
  - left. rewrite !timeouts_set_app, Hpre, Hp.
    cbn [pending_timers monitoringTimeout next_handle set_monitoringTimeout
         set_timers timeouts_set flat_map app].
    rewrite S2, S3, W1, W3. auto.
  - right. rewrite !timeouts_set_app, Hpre, Hp.
    cbn [timeouts_set flat_map app].
    rewrite S1, S2, S3, W1, W2, W3. repeat split.
    exists e. right. right. apply in_or_app. right. apply in_or_app. left.
    apply processProposals_throws. exact Eo.
Qed.

(** X15.  On a complete configuration with a text-based channel, and
    unless the failure report of the cycle could not be sent,
    [startMonitoring] sets exactly one timeout, for
    [AUTO_CHECK_INTERVAL] and with the configuration it was called with:
    the pending timeouts are the old ones without the one
    [monitoringTimeout] held, plus the new one, which [monitoringTimeout]
    now holds. *)
Theorem startMonitoring_replaces_timeout (config : Config) (channel : Channel)
  (w : World) :
  incomplete config = false ->
  channel_lookup w (str (notificationChannelId config))
    = Returned (Some channel) ->
  isTextBased channel = true ->
  let r := run (startMonitoring config) w in
  (forall e, ~ In (EvSend (channel_id channel) (Text error_text) (Some e))
                  (events r)) ->
  timeouts_set (events r) = [(next_handle w, AUTO_CHECK_INTERVAL, config)] /\
  pending_timers (final r) = cleared w ++ [(next_handle w, config)] /\
  monitoringTimeout (final r) = Some (next_handle w) /\
  next_handle (final r) = S (next_handle w).
Proof.
  intros Hi Hl Ht r Hno.
  destruct (@startMonitoring_timers config channel w Hi Hl Ht)
    as [H | [_ [_ [_ [_ [e He]]]]]]; [exact H|].
  exfalso. exact (Hno e He).
Qed.

Lemma startMonitoring_replaces_timeout_example :
  pending_timers armed_world = [(0, example_config)] /\
  pending_timers (final (run (startMonitoring example_config) armed_world))
  = [(1, example_config)] /\
  monitoringTimeout (final (run (startMonitoring example_config) armed_world))
  = Some 1.
Proof.
  split; [reflexivity|].
  destruct (@startMonitoring_replaces_timeout example_config example_channel
              armed_world eq_refl eq_refl eq_refl) as [_ [H2 [H3 _]]].
  - intros e H. vm_compute in H.
    repeat (destruct H as [H|H]; [discriminate H|]). exact H.
  - split; [exact H2 | exact H3].
Defined.

(** X16.  Run without interruption, [startMonitoring] keeps the timers
    single: if at most one timeout is pending, and [monitoringTimeout]
    holds it, the same is true afterwards, for every configuration. *)
Theorem startMonitoring_keeps_single_timer (config : Config) (w : World) :
  single_timer w ->
  single_timer (final (run (startMonitoring config) w)).
Proof.
  intros Hs.
  destruct (incomplete config) eqn:Hi.
  { destruct (@startMonitoring_idle config w) as [Hf _];
      [rewrite Hi; discriminate|]. rewrite Hf. exact Hs. }
  destruct (channel_lookup w (str (notificationChannelId config)))
    as [[channel|]|e] eqn:Hl.
  2,3: destruct (@startMonitoring_idle config w) as [Hf _];
       [intros _ ch E; rewrite Hl in E; discriminate | rewrite Hf; exact Hs].
  destruct (isTextBased channel) eqn:Ht.
  2: { destruct (@startMonitoring_idle config w) as [Hf _];
         [intros _ ch E; rewrite Hl in E; injection E as <-; exact Ht|].
       rewrite Hf. exact Hs. }
  assert (Hc : cleared w = []).
  { unfold single_timer in Hs. unfold cleared.
    destruct (pending_timers w) as [|[h c] [|t ts]]; try contradiction.
    - destruct (monitoringTimeout w); reflexivity.
    - rewrite Hs. cbn. rewrite Nat.eqb_refl. reflexivity. }
  unfold single_timer.
  destruct (@startMonitoring_timers config channel w Hi Hl Ht)
    as [[_ [Hp [Hm _]]] | [_ [Hp _]]]; rewrite Hp, Hc; cbn; auto.
Qed.

Lemma startMonitoring_keeps_single_timer_example :
  single_timer armed_world /\
  single_timer (final (run (startMonitoring example_config) armed_world)).
Proof.
  split; [reflexivity|].
  apply (@startMonitoring_keeps_single_timer example_config armed_world).
  reflexivity.
Defined.

(** ** The commands *)

Lemma run_loadConfig (w : World) :
  run loadConfig w
  = mkRun [EvReadConfig match config_file w with
                        | Some c => Returned c
                        | None => Thrown enoent
                        end] w (Returned (loaded w)).
Proof.
  unfold loadConfig, loaded. cbn. destruct (config_file w); reflexivity.
Qed.

(** X17.  A message of a bot is dropped before anything is read.  A
    message of a user that neither starts with [!setup] or [!setchannel]
    nor is [!fetch] makes the handler read [config.json] and nothing
    else: the world is unchanged and the handler returns. *)
Theorem other_messages_are_ignored (message : DiscordMessage) (w : World) :
  author_bot message = true \/ is_command (content message) = false ->
  let r := run (onMessageCreate message) w in
  final r = w /\ outcome r = Returned tt /\
  events r = (if author_bot message then []
              else [EvReadConfig match config_file w with
                                 | Some c => Returned c
                                 | None => Thrown enoent
                                 end]).
Proof.
  intros H. cbv zeta. unfold onMessageCreate.
  destruct (author_bot message) eqn:Eb; [cbn; auto|].
  destruct H as [H|H]; [discriminate|].
  unfold is_command in H.
  apply orb_false_iff in H. destruct H as [H H3].
  apply orb_false_iff in H. destruct H as [H1 H2].
  rewrite run_bind, run_loadConfig. cbn [outcome events final]. cbv zeta.
  unfold setup_command, setchannel_command, fetch_command.
  rewrite H1. cbn [bind]. rewrite H2. cbn [bind]. rewrite H3.
  cbn. auto.
Qed.

Lemma other_messages_are_ignored_example :
  final (run (onMessageCreate info_message) example_world) = example_world /\
  events (run (onMessageCreate info_message) example_world)
  = [EvReadConfig (Returned example_config)].
Proof.
  destruct (@other_messages_are_ignored info_message example_world)
    as [H1 [_ H3]]; [right; reflexivity|].
  split; [exact H1 | exact H3].
Defined.

(** A message that starts with [!setup] neither starts with [!setchannel]
    nor is [!fetch], and so on: at most one branch of the handler runs. *)
Lemma setup_only (c : string) :
  prefix "!setup" c = true ->
  prefix "!setchannel" c = false /\ (c =? "!fetch") = false.
Proof.
  intros H.
  do 6 (destruct c as [|? c]; [discriminate H|]; cbn [prefix] in H;
        destruct (ascii_dec _ _) as [<-|]; [|discriminate H]).
  split; reflexivity.
Qed.

Lemma setchannel_only (c : string) :
  prefix "!setchannel" c = true ->
  prefix "!setup" c = false /\ (c =? "!fetch") = false.
Proof.
  intros H.
  do 11 (destruct c as [|? c]; [discriminate H|]; cbn [prefix] in H;
         destruct (ascii_dec _ _) as [<-|]; [|discriminate H]).
  split; reflexivity.
Qed.

Lemma cycle_started_processProposals (channel : Channel)
  (realmId programId : string) (w : World) :
  cycle_started (events (run (processProposals channel realmId programId) w))
  = true.
Proof.
  rewrite run_processProposals. cbv zeta.
  destruct (outcome _); [reflexivity|].
  destruct (next_fault _). reflexivity.
Qed.

(** The handler on [!fetch]. *)
Lemma run_fetch_message (message : DiscordMessage) (w : World) :
  author_bot message = false ->
  content message = "!fetch" ->
  run (onMessageCreate message) w =
  let config := loaded w in
  let read := EvReadConfig match config_file w with
                           | Some c => Returned c
                           | None => Thrown enoent
                           end in
  let reply text :=
    let (fault, rest) := next_fault (send_faults w) in
    mkRun [EvReply (Text text) fault] (set_send_faults rest w)
          (outcome_of_fault fault) in
  if incomplete config then
    let r := reply not_configured_text in
    mkRun (read :: events r) (final r) (outcome r)
  else
    let lookup := EvChannelsFetch (str (notificationChannelId config)) in
    match channel_lookup w (str (notificationChannelId config)) with
    | Returned (Some channel) =>
        let r := run (processProposals channel (str (realmId config))
                                       (str (programId config))) w in
        mkRun (read :: lookup :: events r) (final r) (outcome r)
    | _ =>
        let r := reply invalid_channel_text in
        mkRun (read :: lookup :: events r) (final r) (outcome r)
    end.
Proof.
  intros Hb Hc. unfold onMessageCreate. rewrite Hb.
  rewrite run_bind, run_loadConfig. cbn [outcome events final]. cbv zeta.
  unfold setup_command, setchannel_command, fetch_command.
  rewrite Hc.
  change (prefix "!setup" "!fetch") with false.
  change (prefix "!setchannel" "!fetch") with false.
  change ("!fetch" =? "!fetch") with true. cbn [bind].
  destruct (incomplete (loaded w)).
  - cbn. destruct (next_fault (send_faults w)) as [[e|] rest]; reflexivity.
  - rewrite run_bind, run_try_catch.
    cbn [call run perform outcome events final].
    destruct (channel_lookup w (str (notificationChannelId (loaded w))))
      as [[channel|]|e]; cbn [outcome events final run app].
    + destruct (run (processProposals channel _ _) w) as [evs wf o].
      cbn. destruct o; reflexivity.
    + cbn. destruct (next_fault (send_faults w)) as [[e|] rest]; reflexivity.
    + cbn. destruct (next_fault (send_faults w)) as [[e'|] rest]; reflexivity.
Qed.

(** X18.  [!fetch] on an incomplete configuration, or with a
    notification channel whose lookup throws or finds nothing, answers
    with the one matching reply and runs no cycle: nothing is sent to the
    channel and no RPC call is made.  The handler fails exactly when the
    reply fails. *)
Theorem fetch_replies_when_it_cannot_run (message : DiscordMessage) (w : World) :
  author_bot message = false ->
  content message = "!fetch" ->
  (incomplete (loaded w) = true \/
   forall channel,
     channel_lookup w (str (notificationChannelId (loaded w)))
     <> Returned (Some channel)) ->
  let r := run (onMessageCreate message) w in
  replies (events r)
  = [Text (if incomplete (loaded w) then not_configured_text
           else invalid_channel_text)] /\
  cycle_started (events r) = false /\
  sends (events r) = [] /\
  rpc_events (events r) = [] /\
  final r = set_send_faults (snd (next_fault (send_faults w))) w /\
  outcome r = outcome_of_fault (fst (next_fault (send_faults w))).
Proof.
  intros Hb Hc H. cbv zeta. rewrite (@run_fetch_message message w Hb Hc).
  cbv zeta.
  destruct (incomplete (loaded w)) eqn:Ei.
  - destruct (next_fault (send_faults w)) as [fault rest]. cbn.
      repeat split.
  - destruct H as [H|H]; [discriminate|].
    destruct (channel_lookup w (str (notificationChannelId (loaded w))))
      as [[channel|]|e] eqn:El.
    + exfalso. exact (H channel eq_refl).
    + destruct (next_fault (send_faults w)) as [fault rest]. cbn.
      repeat split.
    + destruct (next_fault (send_faults w)) as [fault rest]. cbn.
      repeat split.
Qed.

Lemma fetch_replies_when_it_cannot_run_example :
  replies (events (run (onMessageCreate fetch_message) unconfigured_world))
  = [Text not_configured_text] /\
  cycle_started (events (run (onMessageCreate fetch_message)
                             unconfigured_world)) = false.
Proof.
  destruct (@fetch_replies_when_it_cannot_run fetch_message unconfigured_world)
    as [H1 [H2 _]]; [reflexivity | reflexivity | left; reflexivity |].
  split; [exact H1 | exact H2].
Defined.

(** X19.  [!fetch] only tests that the channel exists, where
    [startMonitoring] also tests that it is text-based: for a channel that
    is not, [!fetch] enters a cycle in the same world in which
    [startMonitoring] refuses to. *)
Theorem fetch_skips_text_check (message : DiscordMessage) (channel : Channel)
  (w : World) :
  author_bot message = false ->
  content message = "!fetch" ->
  incomplete (loaded w) = false ->
  channel_lookup w (str (notificationChannelId (loaded w)))
    = Returned (Some channel) ->
  isTextBased channel = false ->
  cycle_started (events (run (onMessageCreate message) w)) = true /\
  cycle_started (events (run (startMonitoring (loaded w)) w)) = false.
Proof.
  intros Hb Hc Hi Hl Ht. split.
  - rewrite (@run_fetch_message message w Hb Hc). cbv zeta.
    rewrite Hi, Hl. cbn [events].
    change (cycle_started (?a :: ?b :: ?l)) with (cycle_started l).
    apply cycle_started_processProposals.
  - destruct (@startMonitoring_idle (loaded w) w) as [_ [H _]]; [|exact H].
    intros _ ch E. rewrite Hl in E. injection E as <-. exact Ht.
Qed.

Lemma fetch_skips_text_check_example :
  cycle_started (events (run (onMessageCreate fetch_message) voice_world))
  = true /\
  cycle_started (events (run (startMonitoring (loaded voice_world))
                             voice_world)) = false.
Proof.
  apply (@fetch_skips_text_check fetch_message voice_channel voice_world);
    reflexivity.
Defined.

(** The configuration [!setup] stores. *)
Lemma run_setup_message (message : DiscordMessage) (w : World) :
  author_bot message = false ->
  prefix "!setup" (content message) = true ->
  run (onMessageCreate message) w =
  let args := split_spaces (content message) in
  let read := EvReadConfig match config_file w with
                           | Some c => Returned c
                           | None => Thrown enoent
                           end in
  if (length args <? 3)%nat then
    let (fault, rest) := next_fault (send_faults w) in
    mkRun [read; EvReply (Text setup_usage_text) fault]
          (set_send_faults rest w) (outcome_of_fault fault)
  else
    let config := mkConfig (Some (nth 1 args "")) (Some (nth 2 args ""))
                           (notificationChannelId (loaded w)) in
    let (fault, rest) := next_fault (write_faults w) in
    match fault with
    | Some e =>
        mkRun [read; EvWriteConfig config (Some e)]
              (set_write_faults rest w) (Thrown e)
    | None =>
        let w1 := set_config_file (Some config) (set_write_faults rest w) in
        let (sfault, srest) := next_fault (send_faults w1) in
        mkRun (read :: EvWriteConfig config None
                 :: EvSendDetached (channel_id (message_channel message))
                      (Text setup_complete_text) sfault
                 :: (if truthy (notificationChannelId (loaded w))
                     then [EvCallStartMonitoring config] else []))
              (set_send_faults srest w1) (Returned tt)
    end.
Proof.
  intros Hb Hp. unfold onMessageCreate. rewrite Hb.
  rewrite run_bind, run_loadConfig. cbn [outcome events final]. cbv zeta.
  destruct (setup_only _ Hp) as [Hc Hf].
  unfold setup_command, setchannel_command, fetch_command, saveConfig.
  rewrite Hp, Hc, Hf.
  destruct (length (split_spaces (content message)) <? 3)%nat.
  - cbn. destruct (next_fault (send_faults w)) as [[e|] rest]; reflexivity.
  - cbn [notificationChannelId].
    destruct (truthy (notificationChannelId (loaded w)));
      cbn; destruct (next_fault (write_faults w)) as [[e|] rest];
      cbn; try reflexivity;
      destruct (next_fault (send_faults w)) as [[e|] srest]; reflexivity.
Qed.

(** The configuration [!setchannel] stores. *)
Lemma run_setchannel_message (message : DiscordMessage) (w : World) :
  author_bot message = false ->
  prefix "!setchannel" (content message) = true ->
  run (onMessageCreate message) w =
  let read := EvReadConfig match config_file w with
                           | Some c => Returned c
                           | None => Thrown enoent
                           end in
  let config := mkConfig (realmId (loaded w)) (programId (loaded w))
                         (Some (channel_id (message_channel message))) in
  let (fault, rest) := next_fault (write_faults w) in
  match fault with
  | Some e =>
      mkRun [read; EvWriteConfig config (Some e)]
            (set_write_faults rest w) (Thrown e)
  | None =>
      let w1 := set_config_file (Some config) (set_write_faults rest w) in
      let (sfault, srest) := next_fault (send_faults w1) in
      mkRun (read :: EvWriteConfig config None
               :: EvSendDetached (channel_id (message_channel message))
                    (Text channel_set_text) sfault
               :: (if truthy (realmId (loaded w))
                      && truthy (programId (loaded w))
                   then [EvCallStartMonitoring config] else []))
            (set_send_faults srest w1) (Returned tt)
  end.
Proof.
  intros Hb Hp. unfold onMessageCreate. rewrite Hb.
  rewrite run_bind, run_loadConfig. cbn [outcome events final]. cbv zeta.
  destruct (setchannel_only _ Hp) as [Hc Hf].
  unfold setup_command, setchannel_command, fetch_command, saveConfig.
  rewrite Hp, Hc, Hf. cbn [bind realmId programId].
  destruct (truthy (realmId (loaded w)) && truthy (programId (loaded w)));
    cbn; destruct (next_fault (write_faults w)) as [[e|] rest];
    cbn; try reflexivity;
    destruct (next_fault (send_faults w)) as [[e|] srest]; reflexivity.
Qed.

(** X20.  [!setup] with fewer than three space-separated fields only
    replies with the usage line: nothing is written to [config.json],
    nothing is sent to the channel, and monitoring is not started. *)
Theorem setup_with_too_few_fields (message : DiscordMessage) (w : World) :
  author_bot message = false ->
  prefix "!setup" (content message) = true ->
  length (split_spaces (content message)) < 3 ->
  let r := run (onMessageCreate message) w in
  replies (events r) = [Text setup_usage_text] /\
  config_writes (events r) = [] /\
  detached (events r) = [] /\
  calls (events r) = [] /\
  final r = set_send_faults (snd (next_fault (send_faults w))) w /\
  outcome r = outcome_of_fault (fst (next_fault (send_faults w))).
Proof.
  intros Hb Hp Hl. cbv zeta.
  rewrite (@run_setup_message message w Hb Hp). cbv zeta.
  apply Nat.ltb_lt in Hl. rewrite Hl.
  destruct (next_fault (send_faults w)) as [fault rest]. cbn. repeat split.
Qed.

Lemma setup_with_too_few_fields_example :
  split_spaces (content short_setup_message) = ["!setup"; "realm-1"] /\
  replies (events (run (onMessageCreate short_setup_message) example_world))
  = [Text setup_usage_text] /\
  config_writes (events (run (onMessageCreate short_setup_message)
                             example_world)) = [].
Proof.
  split; [reflexivity|].
  destruct (@setup_with_too_few_fields short_setup_message example_world)
    as [H1 [H2 _]]; [reflexivity | reflexivity | cbn; lia |].
  split; [exact H1 | exact H2].
Defined.

(** X21.  [!setup] with at least three fields, when the write
    succeeds, stores the second and third field as realm and program and
    keeps the notification channel of the old configuration; [loadConfig]
    then returns exactly that.  The confirmation is sent once, without
    [await], and [startMonitoring] is called, once and with the new
    configuration, exactly when a notification channel was already set.
    The proposal store and the timers are untouched. *)
Theorem setup_stores_ids (message : DiscordMessage) (w : World) :
  author_bot message = false ->
  prefix "!setup" (content message) = true ->
  3 <= length (split_spaces (content message)) ->
  fst (next_fault (write_faults w)) = None ->
  let r := run (onMessageCreate message) w in
  let config := mkConfig (Some (nth 1 (split_spaces (content message)) ""))
                         (Some (nth 2 (split_spaces (content message)) ""))
                         (notificationChannelId (loaded w)) in
  config_file (final r) = Some config /\
  outcome (run loadConfig (final r)) = Returned config /\
  detached (events r) = [Text setup_complete_text] /\
  calls (events r)
  = (if truthy (notificationChannelId (loaded w)) then [config] else []) /\
  replies (events r) = [] /\
  proposal_store (final r) = proposal_store w /\
  pending_timers (final r) = pending_timers w /\
  outcome r = Returned tt.
Proof.
  intros Hb Hp Hl Hw. cbv zeta.
  rewrite (@run_setup_message message w Hb Hp). cbv zeta.
  apply Nat.ltb_ge in Hl. rewrite Hl.
  destruct (next_fault (write_faults w)) as [fault rest]. cbn in Hw. subst fault.
  destruct (next_fault (send_faults _)) as [sfault srest].
  rewrite run_loadConfig.
  destruct (truthy (notificationChannelId (loaded w))); cbn; repeat split.
Qed.

Lemma setup_stores_ids_example :
  config_file (final (run (onMessageCreate
                             (setup_message "realm-2" "program-2"
                                            example_channel))
                          example_world))
  = Some (mkConfig (Some "realm-2") (Some "program-2") (Some "channel-1")).
Proof.
  destruct (@setup_stores_ids
              (setup_message "realm-2" "program-2" example_channel)
              example_world) as [H _];
    [reflexivity | reflexivity | cbn; lia | reflexivity |].
  exact H.
Defined.

(** X22.  [!setchannel], when the write succeeds, stores the id of the
    channel the message came from and keeps realm and program;
    [startMonitoring] is called with the new configuration exactly when
    both were already set. *)
Theorem setchannel_stores_channel (message : DiscordMessage) (w : World) :
  author_bot message = false ->
  prefix "!setchannel" (content message) = true ->
  fst (next_fault (write_faults w)) = None ->
  let r := run (onMessageCreate message) w in
  let config := mkConfig (realmId (loaded w)) (programId (loaded w))
                         (Some (channel_id (message_channel message))) in
  config_file (final r) = Some config /\
  outcome (run loadConfig (final r)) = Returned config /\
  detached (events r) = [Text channel_set_text] /\
  calls (events r)
  = (if truthy (realmId (loaded w)) && truthy (programId (loaded w))
     then [config] else []) /\
  replies (events r) = [] /\
  proposal_store (final r) = proposal_store w /\
  pending_timers (final r) = pending_timers w /\
  outcome r = Returned tt.
Proof.
  intros Hb Hp Hw. cbv zeta.
  rewrite (@run_setchannel_message message w Hb Hp). cbv zeta.
  destruct (next_fault (write_faults w)) as [fault rest]. cbn in Hw. subst fault.
  destruct (next_fault (send_faults _)) as [sfault srest].
  rewrite run_loadConfig.
  destruct (truthy (realmId (loaded w)) && truthy (programId (loaded w)));
    cbn; repeat split.
Qed.

Lemma setchannel_stores_channel_example :
  config_file (final (run (onMessageCreate (setchannel_message example_channel))
                          unconfigured_world))
  = Some (mkConfig None None (Some "channel-1")) /\
  calls (events (run (onMessageCreate (setchannel_message example_channel))
                     unconfigured_world)) = [].
Proof.
  destruct (@setchannel_stores_channel (setchannel_message example_channel)
              unconfigured_world) as [H1 [_ [_ [H4 _]]]];
    [reflexivity | reflexivity | reflexivity |].
  split; [exact H1 | exact H4].
Defined.



(** *** [!setup] and [!setchannel] one after the other *)

Lemma split_spaces_nonempty (s : string) : split_spaces s <> [].
Proof.
  induction s as [|c s IH]; cbn; [discriminate|].
  destruct (Ascii.eqb c " "); [discriminate|].
  destruct (split_spaces s); [contradiction IH; reflexivity | discriminate].
Qed.

Lemma split_spaces_no_space (s : string) :
  has_space s = false -> split_spaces s = [s].
Proof.
  induction s as [|c s IH]; cbn; [reflexivity|].
  destruct (Ascii.eqb c " "); [discriminate|]. cbn.
  intros H. rewrite (IH H). reflexivity.
Qed.

Lemma split_spaces_app (s t : string) :
  split_spaces (s ++ String " " t)%string = split_spaces s ++ split_spaces t.
Proof.
  induction s as [|c s IH]; cbn [String.append split_spaces].
  - reflexivity.
  - rewrite IH. destruct (Ascii.eqb c " "); [reflexivity|].
    destruct (split_spaces s) as [|f fs] eqn:E;
      [contradiction (split_spaces_nonempty s) | reflexivity].
Qed.

Lemma split_setup_message (realm program : string) :
  has_space realm = false -> has_space program = false ->
  split_spaces ("!setup " ++ realm ++ " " ++ program)%string
  = ["!setup"; realm; program].
Proof.
  intros Hr Hp.
  change ("!setup " ++ realm ++ " " ++ program)%string
    with ("!setup" ++ String " " (realm ++ String " " program))%string.
  rewrite !split_spaces_app, (@split_spaces_no_space realm Hr),
    (@split_spaces_no_space program Hp).
  reflexivity.
Qed.

(** X24.  [!setup realm program] and [!setchannel], in either order,
    leave the same complete configuration in [config.json].  The second
    command is the one that calls [startMonitoring]: after [!setup] then
    [!setchannel] when realm and program are not empty, after
    [!setchannel] then [!setup] when the channel id is not empty. *)
Theorem setup_and_setchannel_complete_the_configuration
  (realm program : string) (from from' : Channel) (w : World) :
  has_space realm = false -> has_space program = false ->
  fst (next_fault (write_faults w)) = None ->
  fst (next_fault (snd (next_fault (write_faults w)))) = None ->
  let config :=
    mkConfig (Some realm) (Some program) (Some (channel_id from')) in
  let setup := onMessageCreate (setup_message realm program from) in
  let setchannel := onMessageCreate (setchannel_message from') in
  let r := run setchannel (final (run setup w)) in
  let r' := run setup (final (run setchannel w)) in
  config_file (final r) = Some config /\
  config_file (final r') = Some config /\
  calls (events r)
  = (if truthy (Some realm) && truthy (Some program) then [config] else []) /\
  calls (events r')
  = (if truthy (Some (channel_id from')) then [config] else []).
Proof.
  intros Hr Hp Hw1 Hw2. cbv zeta.
  assert (Hs : forall v : World,
            run (onMessageCreate (setup_message realm program from)) v
            = _) by (intros v; apply run_setup_message; reflexivity).
  assert (Hc : forall v : World,
            run (onMessageCreate (setchannel_message from')) v
            = _) by (intros v; apply run_setchannel_message; reflexivity).
  cbv zeta in Hs, Hc. cbn [content setup_message setchannel_message
                           message_channel] in Hs, Hc.
  rewrite (@split_setup_message realm program Hr Hp) in Hs. cbn [length Nat.ltb Nat.leb nth] in Hs.
  destruct w as [store c ga pp vk cl rf sf wf mt pt nh].
  cbn [write_faults] in Hw1, Hw2.
  rewrite !Hs, !Hc. unfold loaded.
  destruct wf as [|f1 wf]; [|destruct wf as [|f2 wf]];
    cbn in Hw1, Hw2; subst; cbn;
    repeat match goal with
           | |- context [next_fault ?s] =>
               is_var s; destruct s as [|[?|] ?]; cbn
           end;
    repeat split;
    repeat match goal with
           | |- context [if ?b then _ else _] => destruct b; cbn
           end; reflexivity.
Qed.

Lemma setup_and_setchannel_complete_the_configuration_example :
  config_file
    (final (run (onMessageCreate (setchannel_message example_channel))
                (final (run (onMessageCreate
                               (setup_message "realm-1" "program-1"
                                              example_channel))
                            unconfigured_world))))
  = Some example_config.
Proof.
  destruct (@setup_and_setchannel_complete_the_configuration
              "realm-1" "program-1" example_channel example_channel
              unconfigured_world eq_refl eq_refl eq_refl eq_refl) as [H _].
  exact H.
Defined.

(** ** The records of [fetchProposals] *)

(** X25.  A record [fetchProposals] builds carries the public key, the
    name and the first key of the state of its proposal; its description
    is never empty, and is the placeholder exactly when the link is
    missing, empty or the placeholder itself; its end time is the
    placeholder exactly when the proposal has no [votingCompletedAt]. *)
Theorem to_record_fields (p : RawProposal) (r : Proposal.t) :
  to_record p = Returned r ->
  Proposal.id r = rp_publicKey p /\
  Proposal.title r = rp_name p /\
  Proposal.state r = hd_error (rp_state p) /\
  Proposal.description r <> "" /\
  (Proposal.description r = "No description provided." <->
   rp_descriptionLink p = None \/ rp_descriptionLink p = Some ""
   \/ rp_descriptionLink p = Some "No description provided.") /\
  (Proposal.votingEndTime r = NoEndTimeAvailable <->
   rp_votingCompletedAt p = None).
Proof.
  unfold to_record, votingEndTime_of, description_of.
  destruct p as [key gov name link state ends].
  cbn [rp_votingCompletedAt rp_publicKey rp_name rp_descriptionLink rp_state].
  destruct ends as [secs|].
  - destruct (Z.abs secs <? 2 ^ 53)%Z; [|discriminate].
    destruct (Z.abs (secs * 1000) <=? max_time_value)%Z; [|discriminate].
    intros H. injection H as <-. cbn.
    destruct link as [[|c s]|]; cbn; repeat split;
      try discriminate; auto; try (intros [H|[H|H]]; congruence).
    intros H. right. right. rewrite H. reflexivity.
  - intros H. injection H as <-. cbn.
    destruct link as [[|c s]|]; cbn; repeat split;
      try discriminate; auto; try (intros [H|[H|H]]; congruence).
    intros H. right. right. rewrite H. reflexivity.
Qed.

Lemma to_record_fields_example :
  to_record (example_proposal "P1" "G1")
  = Returned (Proposal.mk "P1" "P1" "No description provided."
                          (Some "voting") NoEndTimeAvailable) /\
  Proposal.description
    (Proposal.mk "P1" "P1" "No description provided." (Some "voting")
                 NoEndTimeAvailable) <> "".
Proof.
  split; [reflexivity|].
  destruct (@to_record_fields (example_proposal "P1" "G1")
              (Proposal.mk "P1" "P1" "No description provided."
                           (Some "voting") NoEndTimeAvailable) eq_refl)
    as [_ [_ [_ [H _]]]].
  exact H.
Defined.

(** X26.  The conversion of a proposal succeeds exactly when its
    [votingCompletedAt], if any, is within 8 640 000 000 000 seconds of the
    epoch, the range of [Date]; the 53-bit limit of [toNumber] is never
    the binding one. *)
Theorem to_record_range (p : RawProposal) :
  (exists r, to_record p = Returned r) <->
  (forall secs, rp_votingCompletedAt p = Some secs ->
     (-8640000000000 <= secs <= 8640000000000)%Z).
Proof.
  unfold to_record, votingEndTime_of, max_time_value.
  destruct (rp_votingCompletedAt p) as [secs|].
  - destruct (Z.abs secs <? 2 ^ 53)%Z eqn:E1;
      [destruct (Z.abs (secs * 1000) <=? 8640000000000000)%Z eqn:E2|].
    + split; [|eauto]. intros _ s H. injection H as <-.
      apply Z.leb_le in E2. lia.
    + split; [intros [r H]; discriminate|]. intros H.
      specialize (H secs eq_refl). apply Z.leb_gt in E2. lia.
    + split; [intros [r H]; discriminate|]. intros H.
      specialize (H secs eq_refl). apply Z.ltb_ge in E1.
      change (2 ^ 53)%Z with 9007199254740992%Z in E1. lia.
  - split; [|eauto]. intros _ s H. discriminate.
Qed.

Lemma map_outcome_throws {A B : Type} (f : A -> Outcome B) (l : list A)
  (x : A) (e : Err) :
  In x l -> f x = Thrown e -> exists e', map_outcome f l = Thrown e'.
Proof.
  intros Hin Hx. induction l as [|y l IH]; [contradiction|].
  cbn. destruct Hin as [->|Hin].
  - rewrite Hx. eauto.
  - destruct (f y); [|eauto]. destruct (IH Hin) as [e' ->]. eauto.
Qed.

(** What [fetchProposals] returns is the conversion of the proposals it
    keeps. *)
Lemma fetchProposals_returned (realmId programId : string) (w : World)
  (ps : list Proposal.t) :
  outcome (run (fetchProposals realmId programId) w) = Returned ps ->
  map_outcome to_record (kept w realmId programId) = Returned ps.
Proof.
  destruct (valid_key w programId) eqn:Hp.
  - rewrite run_fetchProposals by exact Hp. cbv zeta.
    unfold fetch_attempt, kept.
    destruct w as [store c ga pp vk cl rf sf wf mt pt nh].
    cbn in Hp. cbn. destruct (vk realmId); cbn; [|discriminate].
    destruct rf as [|[e|] rf]; cbn; rewrite ?Hp; cbn;
      try (destruct rf as [|[e'|] rf]; cbn);
      try (destruct (map_outcome to_record _) as [l|e''] eqn:Em; cbn);
      repeat match goal with
             | |- context [is_429 ?x] => destruct (is_429 x); cbn
             end; congruence.
  - rewrite run_fetchProposals_invalid by exact Hp. discriminate.
Qed.

(** A cycle whose fetch throws reports the failure and does nothing
    else. *)
Lemma cycle_of_failed_fetch (channel : Channel) (realmId programId : string)
  (w : World) (e : Err) :
  outcome (run (fetchProposals realmId programId) w) = Thrown e ->
  let r := run (processProposals channel realmId programId) w in
  sends (events r) = [Text error_text] /\
  store_writes (events r) = [] /\
  proposal_store (final r) = proposal_store w.
Proof.
  intros Hf. cbv zeta.
  destruct (fetchProposals_quiet realmId programId w)
    as [Fw [Fs [_ [Fp _]]]].
  rewrite run_processProposals. cbv zeta.
  rewrite run_process_try. cbv zeta. rewrite Hf.
  cbn [events final outcome].
  destruct (next_fault _) as [fault rest]. cbn [events final].
  change (EvConsole LogProcessing :: ?a ++ ?b)
    with ([EvConsole LogProcessing] ++ a ++ b).
  rewrite !sends_app, !store_writes_app, Fs, Fw.
  split; [reflexivity|]. split; [reflexivity|]. exact Fp.
Qed.

(** X27.  One kept proposal with a [votingCompletedAt] out of that
    range makes the whole cycle fail: [processProposals] sends the failure
    message and nothing else, no proposal is announced and none is marked,
    however many others were fetched with it. *)
Theorem bad_timestamp_blocks_cycle (channel : Channel)
  (realmId programId : string) (w : World) (p : RawProposal) (secs : Z) :
  In p (kept w realmId programId) ->
  rp_votingCompletedAt p = Some secs ->
  (8640000000000 < Z.abs secs)%Z ->
  let r := run (processProposals channel realmId programId) w in
  sends (events r) = [Text error_text] /\
  store_writes (events r) = [] /\
  proposal_store (final r) = proposal_store w.
Proof.
  intros Hin Hs Hbig.
  assert (Hp : exists e, to_record p = Thrown e).
  { unfold to_record, votingEndTime_of, max_time_value. rewrite Hs.
    destruct (Z.abs secs <? 2 ^ 53)%Z; [|eauto].
    destruct (Z.abs (secs * 1000) <=? 8640000000000000)%Z eqn:E; [|eauto].
    apply Z.leb_le in E. lia. }
  destruct Hp as [e Hp].
  destruct (map_outcome_throws to_record _ _ Hin Hp) as [e' Hm].
  destruct (outcome (run (fetchProposals realmId programId) w))
    as [ps|e''] eqn:Ef.
  - apply fetchProposals_returned in Ef. congruence.
  - exact (@cycle_of_failed_fetch channel realmId programId w e'' Ef).
Qed.

Lemma bad_timestamp_blocks_cycle_example :
  sends (events (run (processProposals example_channel "realm-1" "program-1")
                     far_future_world)) = [Text error_text] /\
  length (sends (events (run (processProposals example_channel "realm-1"
                                               "program-1") example_world)))
  = 3.
Proof.
  split; [|reflexivity].
  apply (@bad_timestamp_blocks_cycle example_channel "realm-1" "program-1"
           far_future_world far_future_proposal 10000000000000%Z).
  - vm_compute. do 2 right. left. reflexivity.
  - reflexivity.
  - reflexivity.
Defined.

(** ** The bot at [ready] *)

Lemma run_loop_unconfigured (w : World) :
  incomplete (loaded w) = true ->
  run_loop [ClientReady; Resume 0] (boot w)
  = Some (mkLoop w [] 2
            [(0, EvReadConfig match config_file w with
                              | Some c => Returned c
                              | None => Thrown enoent
                              end);
             (0, EvCallStartMonitoring (loaded w));
             (1, EvConsole LogConfigIncomplete)]).
Proof.
  intros Hi. unfold loaded in *. unfold boot.
  cbn [run_loop step]. unfold dispatch, start_task.
  cbn [onReady loadConfig bind try_catch call advance awaited world tasks
       next_task history start_calls calls fold_left map suspended app].
  unfold resume. cbn [tasks world next_task history take_task Nat.eqb].
  cbn [perform].
  destruct (config_file w) as [c|];
    cbn [bind try_catch call advance awaited perform];
    cbn [start_calls calls fold_left app map suspended];
    unfold start_task, startMonitoring;
    cbn [world tasks next_task history]; rewrite Hi;
    cbn; reflexivity.
Qed.

(** X28.  Started without a complete configuration, the bot reads
    [config.json], logs that the configuration is incomplete and stops
    there: no task is left to resume, no cycle was entered and the world
    is unchanged. *)
Theorem bot_without_configuration_stays_idle (w : World) :
  incomplete (loaded w) = true ->
  exists l,
    run_loop [ClientReady; Resume 0] (boot w) = Some l /\
    world l = w /\
    tasks l = [] /\
    cycle_started (map snd (history l)) = false /\
    In (1, EvConsole LogConfigIncomplete) (history l) /\
    forall t, resume t l = None.
Proof.
  intros Hi. rewrite (@run_loop_unconfigured w Hi).
  eexists. split; [reflexivity|]. cbn. repeat split; auto.
Qed.

Lemma bot_without_configuration_stays_idle_example :
  exists l,
    run_loop [ClientReady; Resume 0] (boot unconfigured_world) = Some l /\
    world l = unconfigured_world /\
    tasks l = [].
Proof.
  destruct (@bot_without_configuration_stays_idle unconfigured_world eq_refl)
    as [l [H1 [H2 [H3 _]]]].
  exists l. repeat split; assumption.
Defined.

(** A program that stops at an [await] stops there inside [bind] and
    inside [try]. *)
Lemma advance_bind_suspended (p : Prog unit) (f : unit -> Prog unit) :
  forall (w w' : World) (evs : list Event) (rest : Prog unit),
  advance p w = (evs, w', Some rest) ->
  exists rest', advance (bind p f) w = (evs, w', Some rest').
Proof.
  induction p as [a | e | X eff k IH]; intros w w' evs rest H.
  - discriminate H.
  - discriminate H.
  - cbn [bind advance] in *. destruct (awaited eff).
    + injection H as <- <- <-. eauto.
    + destruct (perform eff w) as [[ev w1] r].
      destruct (advance (k r) w1) as [[evs1 w2] rest1] eqn:E.
      injection H as <- <- ->.
      destruct (IH r w1 w2 evs1 rest E) as [rest' ->]. eauto.
Qed.

Lemma advance_try_suspended (p : Prog unit) (h : Err -> Prog unit) :
  forall (w w' : World) (evs : list Event) (rest : Prog unit),
  advance p w = (evs, w', Some rest) ->
  exists rest', advance (try_catch p h) w = (evs, w', Some rest').
Proof.
  induction p as [a | e | X eff k IH]; intros w w' evs rest H.
  - discriminate H.
  - discriminate H.
  - cbn [try_catch advance] in *. destruct (awaited eff).
    + injection H as <- <- <-. eauto.
    + destruct (perform eff w) as [[ev w1] r].
      destruct (advance (k r) w1) as [[evs1 w2] rest1] eqn:E.
      injection H as <- <- ->.
      destruct (IH r w1 w2 evs1 rest E) as [rest' ->]. eauto.
Qed.

(** X29.  Started with a complete configuration whose channel is
    found and text-based, the bot is inside its first cycle after two
    resumptions: task 1, the [startMonitoring] of the [ready] handler, is
    the only task, it has entered [processProposals], and the timeout
    [monitoringTimeout] held has been cancelled. *)
Theorem configured_bot_starts_cycle_at_ready (w : World) (channel : Channel) :
  incomplete (loaded w) = false ->
  channel_lookup w (str (notificationChannelId (loaded w)))
    = Returned (Some channel) ->
  isTextBased channel = true ->
  exists l,
    run_loop [ClientReady; Resume 0; Resume 1] (boot w) = Some l /\
    in_flight l = [1] /\
    map fst (tasks l) = [1] /\
    pending_timers (world l) = cleared w.
Proof.
  intros Hi Hl Ht. unfold loaded in *. unfold boot.
  cbn [run_loop step]. unfold dispatch, start_task.
  cbn [onReady loadConfig bind try_catch call advance awaited world tasks
       next_task history start_calls calls fold_left map suspended app].
  unfold resume at 1. cbn [tasks world next_task history take_task Nat.eqb].
  cbn [perform].
  set (config := match config_file w with
                 | Some c => c
                 | None => empty_config
                 end) in *.
  assert (Hadv : forall r : Outcome Config,
            r = match config_file w with
                | Some c => Returned c
                | None => Thrown enoent
                end ->
            advance (config <- try_catch
                                 match r with
                                 | Returned x => Ret x
                                 | Thrown e => Throw e
                                 end (fun _ : Err => Ret empty_config) ;;
                     call (CallStartMonitoring config)) w
            = ([EvCallStartMonitoring config], w, None)).
  { intros r ->. unfold config. destruct (config_file w); reflexivity. }
  rewrite (Hadv _ eq_refl).
  cbn [start_calls calls fold_left app map suspended].
  unfold start_task, startMonitoring. cbn [world tasks next_task history].
  rewrite Hi. unfold monitoring_try.
  cbn [bind try_catch call advance awaited app suspended map].
  unfold resume. cbn [tasks world next_task history take_task Nat.eqb].
  cbn [perform]. rewrite Hl.
  cbn -[processProposals]. rewrite Ht. cbn -[processProposals].
  set (w1 := match monitoringTimeout w with
             | Some handle =>
                 set_timers (filter (fun t => negb (fst t =? handle)%nat)
                                    (pending_timers w)) (next_handle w) w
             | None => w
             end).
  assert (Hcyc : forall f h, exists evs rest,
            advance (try_catch
                       (processProposals channel (str (realmId config))
                          (str (programId config)) ;; f) h) w1
            = (EvConsole LogProcessing :: evs, w1, Some rest)
            /\ calls evs = []).
  { intros f h.
    destruct (advance_processProposals channel (str (realmId config))
                (str (programId config)) w1) as [evs [rest [E Hc]]].
    destruct (advance_bind_suspended _ (fun _ => f) _ E) as [rest1 E1].
    destruct (advance_try_suspended _ h _ E1) as [rest2 E2].
    exists evs, rest2. split; [exact E2 | exact Hc]. }
  assert (Hw1 : pending_timers w1 = cleared w).
  { unfold w1, cleared. destruct (monitoringTimeout w); reflexivity. }
  destruct (monitoringTimeout w) as [handle|] eqn:Em;
    cbn [bind try_catch call console advance awaited perform];
    fold w1;
    match goal with
    | |- context [advance (try_catch (bind _ (fun _ => ?f)) ?h) w1] =>
        destruct (Hcyc f h) as [evs [rest [E Hc]]]
    end;
    rewrite E; cbn [calls]; rewrite Hc; cbn [fold_left];
    (eexists; split; [reflexivity|]);
    unfold in_flight; cbn; auto.
Qed.

Lemma configured_bot_starts_cycle_at_ready_example :
  exists l,
    run_loop [ClientReady; Resume 0; Resume 1] (boot example_world) = Some l /\
    in_flight l = [1].
Proof.
  destruct (@configured_bot_starts_cycle_at_ready example_world example_channel
              eq_refl eq_refl eq_refl) as [l [H1 [H2 _]]].
  exists l. split; [exact H1 | exact H2].
Defined.
